(** * FileBasedRouter: a shallow embedding of [src/FileBasedRouter.tsx]

    The development follows the source file:
    - [Js]: the string and array methods the file calls ([replace], [split],
      [join], [slice], [pop], [endsWith]), and [pathToRoute] on top of them;
    - [Bridge]: the [DataLoaderComponent] hook component, as a state record,
      the [useEffect] body in a small writer and exception monad, and the
      render function;
    - the [routes] tree builder, with the [currentChildren] reference as a
      position in the tree under [_routes[0]];
    - the properties: [BridgeFacts], [TreeFacts], [StringFacts],
      [RouterFacts]. *)

From Stdlib Require Import Ascii String ZArith Bool List.
From stdpp Require Import base option list strings gmap.

Local Open Scope string_scope.
Local Open Scope list_scope.
Set Warnings "-register-all".

(** ** JavaScript strings *)

Module Js.

(** [s.slice(n)] for [0 <= n]. *)
Fixpoint drop (n : nat) (s : string) : string :=
  match n, s with
  | O, _ => s
  | S _, EmptyString => EmptyString
  | S n', String _ s' => drop n' s'
  end.

(** [s.replace(pat, rep)] with a string pattern: only the first
    occurrence is replaced (the replacement strings of the source contain
    no [$]). *)
Fixpoint replace_first (pat rep s : string) : string :=
  if String.prefix pat s then rep +:+ drop (String.length pat) s
  else match s with
       | EmptyString => EmptyString
       | String c s' => String c (replace_first pat rep s')
       end.

(** [s.endsWith(suf)]. *)
Fixpoint endsWith (suf s : string) : bool :=
  String.eqb s suf
  || match s with
     | EmptyString => false
     | String _ s' => endsWith suf s'
     end.

(** [s.replace(/suf$/, '')] for a literal [suf]: the suffix is removed
    when the string ends with it. *)
Fixpoint strip_suffix (suf s : string) : string :=
  if String.eqb s suf then EmptyString
  else match s with
       | EmptyString => EmptyString
       | String c s' => String c (strip_suffix suf s')
       end.

(** [s.replace(/\[([^\]]+)\]/g, ':$1')], as a left-to-right scan.  A match
    starts at a ["["], takes the longest non-empty run of characters other
    than ["]"], and needs a ["]"] right after it; [pending] is the run read
    since the ["["] under consideration.  When the run is empty (["[]"]) or
    the string ends before a ["]"], there is no match at or after that
    ["["] and the characters are kept. *)
Fixpoint brackets_scan (pending : option string) (s : string) : string :=
  match s, pending with
  | EmptyString, None => EmptyString
  | EmptyString, Some run => String "[" run
  | String c s', None =>
      if Ascii.eqb c "[" then brackets_scan (Some EmptyString) s'
      else String c (brackets_scan None s')
  | String c s', Some run =>
      if Ascii.eqb c "]" then
        match run with
        | EmptyString => "[]" +:+ brackets_scan None s'
        | _ => ":" +:+ run +:+ brackets_scan None s'
        end
      else brackets_scan (Some (run +:+ String c EmptyString)) s'
  end.

Definition replace_brackets (s : string) : string := brackets_scan None s.

(** [s.split(sep)] for a one-character separator; the result is never
    empty (["".split('/')] is [[""]]). *)
Fixpoint split (sep : ascii) (s : string) : list string :=
  match s with
  | EmptyString => [EmptyString]
  | String c s' =>
      if Ascii.eqb c sep then EmptyString :: split sep s'
      else match split sep s' with
           | [] => [String c EmptyString]
           | w :: ws => String c w :: ws
           end
  end.

(** [a.join(sep)]. *)
Fixpoint join (sep : string) (a : list string) : string :=
  match a with
  | [] => EmptyString
  | [w] => w
  | w :: ws => w +:+ sep +:+ join sep ws
  end.

(** [a.slice(0, -1)]. *)
Definition slice_init {A} (a : list A) : list A := removelast a.

(** [a.pop()] read as a value: the last element, [undefined] on an empty
    array. *)
Definition pop {A} (a : list A) : option A := last a.

(** [s.includes(c)] for a character [c]; the source does not call it, the
    statements about segment names do. *)
Fixpoint includes (c : ascii) (s : string) : bool :=
  match s with
  | EmptyString => false
  | String d s' => Ascii.eqb d c || includes c s'
  end.

(** [x || y] on strings: the empty string is falsy. *)
Definition or_else (x y : string) : string :=
  match x with EmptyString => y | _ => x end.

End Js.

Definition BASE_PAGES_PATH : string := "/src/pages".

Definition pathToRoute (filePath : string) : string :=
  Js.or_else
    (Js.strip_suffix "/"
       (Js.strip_suffix "/index"
          (Js.replace_brackets
             (Js.strip_suffix ".tsx"
                (Js.replace_first BASE_PAGES_PATH "" filePath)))))
    "/".

(** A file or directory name as the statements about [pathToRoute] take
    them: no separator and no opening bracket inside. *)
Definition plain_name (s : string) : Prop :=
  Js.includes "/" s = false /\ Js.includes "[" s = false.

(** ** JavaScript values and promises *)

(** The values a data function can resolve to or reject with, functions
    apart: a [useState] setter stores a value of this type as it is, and
    calls a function instead (see [SetStateAction]).  Numbers are the
    integer-valued ones and [NaN]; every other number is truthy like a
    non-zero integer.  [JError] is an [Error] object. *)
Inductive JsValue :=
| JNull
| JUndefined
| JBool (b : bool)
| JNumber (z : Z)
| JNaN
| JString (s : string)
| JObject (fields : list (string * JsValue))
| JError (message : string).

(** [Boolean(v)], the test of [if (v)]. *)
Definition truthy (v : JsValue) : bool :=
  match v with
  | JNull | JUndefined | JNaN => false
  | JBool b => b
  | JNumber z => negb (z =? 0)%Z
  | JString s => negb (String.eqb s "")
  | JObject _ | JError _ => true
  end.

(** [v.message] on a value that is not [null] or [undefined]. *)
Definition message_of (v : JsValue) : JsValue :=
  match v with
  | JError m => JString m
  | JObject fields =>
      match find (fun kv => String.eqb (fst kv) "message") fields with
      | Some kv => snd kv
      | None => JUndefined
      end
  | _ => JUndefined
  end.

(** The state a promise is observed in when it is awaited. *)
Inductive Promise (A : Type) :=
| Pending
| Fulfilled (a : A)
| Rejected (reason : JsValue).
Arguments Pending {A}.
Arguments Fulfilled {A} a.
Arguments Rejected {A} reason.

(** ** Components and elements *)

(** Component identities: [React.lazy(glob[key])] for a key of one of the
    [import.meta.glob] maps, and the three generic fallbacks. *)
Inductive Glob := Pages | Layouts | Loading | Errors.

Inductive Component :=
| Lazy (glob : Glob) (key : string)
| GenericLayout
| GenericLoading
| GenericErrorBoundaryPlaceholder.

(** The JSX the file writes. *)
Inductive Element :=
| Outlet
| Null
| Render (c : Component)
| RenderWithData (c : Component) (initialData : JsValue)
| RenderLayout (c : Component) (children : Element)
| Suspense (fallback child : Element)
| ErrorBoundary (fallback child : Element)
| ErrorNotice (message : JsValue)
| DataLoaderComponent (Component LoadingComponent : Component)
    (dataFunctionImportModule : option string).

(** ** The Data-Loading Bridge: [DataLoaderComponent] *)

Module Bridge.

(** The three [useState] cells. *)
Record State := mkState {
  data : JsValue;
  loading : bool;
  error : JsValue
}.

Definition initial : State :=
  {| data := JNull; loading := true; error := JNull |}.

Inductive Action :=
| setData (v : JsValue)
| setLoading (b : bool)
| setError (e : JsValue).

Definition apply (s : State) (a : Action) : State :=
  match a with
  | setData v => {| data := v; loading := loading s; error := error s |}
  | setLoading b => {| data := data s; loading := b; error := error s |}
  | setError e => {| data := data s; loading := loading s; error := e |}
  end.

(** How a piece of the async function ends: normally, by a thrown value
    (a rejected [await]), or suspended for ever on a pending promise. *)
Inductive Completion (A : Type) :=
| Normal (a : A)
| Throw (e : JsValue)
| Blocked.
Arguments Normal {A} a.
Arguments Throw {A} e.
Arguments Blocked {A}.

(** Async code: the state updates issued so far, and the completion. *)
Definition Async (A : Type) : Type := list Action * Completion A.

Definition ret {A} (a : A) : Async A := ([], Normal a).

Definition bind {A B} (m : Async A) (k : A -> Async B) : Async B :=
  match m with
  | (w, Normal a) => let '(w', c) := k a in ((w ++ w'), c)
  | (w, Throw e) => (w, Throw e)
  | (w, Blocked) => (w, Blocked)
  end.

Definition do (a : Action) : Async unit := ([a], Normal tt).

Definition await {A} (p : Promise A) : Async A :=
  match p with
  | Pending => ([], Blocked)
  | Fulfilled a => ([], Normal a)
  | Rejected e => ([], Throw e)
  end.

(** [try { body } catch (err) { handler err }]. *)
Definition try_catch {A} (body : Async A) (handler : JsValue -> Async A)
  : Async A :=
  match body with
  | (w, Throw e) => let '(w', c) := handler e in ((w ++ w'), c)
  | other => other
  end.

(** [try { body } finally { final }]: [final] runs unless [body] never
    completes; an abrupt completion of [final] wins. *)
Definition finally {A} (body : Async A) (final : Async unit) : Async A :=
  match body with
  | (w, Blocked) => (w, Blocked)
  | (w, c) =>
      let '(w', c') := final in
      ((w ++ w'), match c' with
                | Normal _ => c
                | Throw e => Throw e
                | Blocked => Blocked
                end)
  end.

Notation "x <- m ;; k" := (bind m (fun x => k))
  (at level 100, m at next level, right associativity).
Notation "m ;;; k" := (bind m (fun _ => k))
  (at level 100, right associativity).

(** A data module: what calling its default export, the data function,
    gives (a synchronous throw of the data function is caught by the same
    handler as a rejection, and is a [Rejected] here). *)
Record DataModule := mkModule { default : Promise JsValue }.

(** The [loadData] closure of the effect. *)
Definition loadData (dataFunctionImportModule : option (Promise DataModule))
  : Async unit :=
  finally
    (try_catch
       (do (setLoading true) ;;;
        match dataFunctionImportModule with
        | Some importing =>
            dataFunctionModule <- await importing ;;
            let dataFunction := default dataFunctionModule in
            result <- await dataFunction ;;
            do (setData result)
        | None => ret tt
        end)
       (fun err => do (setError err)))
    (do (setLoading false)).

(** The body of the component after the hooks: what it returns in a given
    state. *)
Definition render (Component LoadingComponent : Component) (s : State)
  : Element :=
  if loading s then Render LoadingComponent
  else if truthy (error s) then ErrorNotice (message_of (error s))
  else if truthy (data s) then RenderWithData Component (data s)
  else Null.

(** The states of one mount: the initial one, then one per state update
    of the effect, in order.  React renders the first state, may skip
    states when it batches updates, and renders the last one. *)
Fixpoint states_from (s : State) (w : list Action) : list State :=
  match w with
  | [] => [s]
  | a :: w' => s :: states_from (apply s a) w'
  end.

Definition states (m : option (Promise DataModule)) : list State :=
  states_from initial (fst (loadData m)).

Definition final_state (m : option (Promise DataModule)) : State :=
  fold_left apply (fst (loadData m)) initial.

(** Everything a mount may show, and what it shows in the end. *)
Definition renders (C L : Component) (m : option (Promise DataModule))
  : list Element :=
  map (render C L) (states m).

Definition final_render (C L : Component) (m : option (Promise DataModule))
  : Element :=
  render C L (final_state m).

(** Whether the effect ran to its end (the promise of [loadData()]
    settled), and whether a rejection escaped it. *)
Definition settled (m : option (Promise DataModule)) : bool :=
  match snd (loadData m) with Blocked => false | _ => true end.

Definition escaped (m : option (Promise DataModule)) : option JsValue :=
  match snd (loadData m) with Throw e => Some e | _ => None end.

(** A data module whose data function resolves to [V], already imported. *)
Definition resolving (V : JsValue) : option (Promise DataModule) :=
  Some (Fulfilled (mkModule (Fulfilled V))).

(** A data module whose data function rejects with [E]. *)
Definition rejecting (E : JsValue) : option (Promise DataModule) :=
  Some (Fulfilled (mkModule (Rejected E))).

(** The bridge shows its target only as [<Component initialData=.. />]. *)
Definition renders_target (e : Element) : bool :=
  match e with
  | RenderWithData _ _ => true
  | _ => false
  end.

End Bridge.

(** ** Route objects *)

(** A [RouteObject] as the file builds them: [path] and [children] may be
    absent, [index] is absent or [true]. *)
Inductive RouteObject := mkRoute {
  path : option string;
  index : bool;
  element : Element;
  children : option (list RouteObject)
}.

(** The node reached from a route by a list of child positions. *)
Fixpoint node_at (p : list nat) (r : RouteObject) : option RouteObject :=
  match p with
  | [] => Some r
  | i :: p' =>
      match children r with
      | Some cs => match cs !! i with
                   | Some c => node_at p' c
                   | None => None
                   end
      | None => None
      end
  end.

Definition children_at (p : list nat) (r : RouteObject)
  : option (list RouteObject) :=
  match node_at p r with
  | Some n => children n
  | None => None
  end.

(** [array.push(n)] on the children array of the node at [p]; the arrays
    are shared with the tree, so the tree changes. *)
Fixpoint push_at (p : list nat) (n : RouteObject) (r : RouteObject)
  : RouteObject :=
  match children r with
  | None => r
  | Some cs =>
      match p with
      | [] => mkRoute (path r) (index r) (element r) (Some (cs ++ [n]))
      | i :: p' =>
          mkRoute (path r) (index r) (element r)
            (Some (alter (push_at p' n) i cs))
      end
  end.

(** What the variable [currentChildren] holds: the children array of a
    node of the tree under [_routes[0]], [undefined], or an array that no
    node of the tree refers to (the [children] of a node that was built
    but not pushed).  Nothing done to such an array can be seen from
    [_routes], and nothing reached from it is in the tree. *)
Inductive ChildrenRef :=
| InTree (p : list nat)
| Undefined
| Orphan.

(** [currentChildren?.push(n)]. *)
Definition push (cur : ChildrenRef) (n : RouteObject) (root : RouteObject)
  : RouteObject :=
  match cur with
  | InTree p => push_at p n root
  | Undefined | Orphan => root
  end.

(** ** The route tree builder: [routes] *)

Section Router.

(** The four [import.meta.glob] maps that are only looked up by key, and
    the keys of [_pages] in the order of [Object.keys]. *)
Variables _layouts _loading _error _data : gset string.
Variable _pages : list string.

(** [Boolean(glob[key])]: the values of the maps are functions. *)
Definition has (glob : gset string) (key : string) : bool :=
  bool_decide (key ∈ glob).

Definition RootLayout : Component :=
  if has _layouts (BASE_PAGES_PATH +:+ "/layout.tsx")
  then Lazy Layouts (BASE_PAGES_PATH +:+ "/layout.tsx")
  else GenericLayout.

Definition hasRootError : bool := has _error (BASE_PAGES_PATH +:+ "/error.tsx").

Definition RootErrorBoundary : Component :=
  if hasRootError then Lazy Errors (BASE_PAGES_PATH +:+ "/error.tsx")
  else GenericErrorBoundaryPlaceholder.

(** The only element of the array literal [_routes]. *)
Definition root_route : RouteObject :=
  {| path := Some "/";
     index := false;
     element :=
       if hasRootError
       then ErrorBoundary (Render RootErrorBoundary)
              (RenderLayout RootLayout Outlet)
       else RenderLayout RootLayout Outlet;
     children := Some [] |}.

(** The constants of one iteration of the outer loop. *)
Definition splittedRoute (pageFile : string) : list string :=
  Js.split "/" (Js.replace_first (BASE_PAGES_PATH +:+ "/") "" pageFile).

Definition routeWithoutFile (pageFile : string) : string :=
  Js.join "/" (Js.slice_init (splittedRoute pageFile)).

Definition collaborator_path (pageFile file : string) : string :=
  BASE_PAGES_PATH
  +:+ match routeWithoutFile pageFile with
      | EmptyString => routeWithoutFile pageFile
      | _ => "/" +:+ routeWithoutFile pageFile
      end
  +:+ file.

Definition loadingFilePath (pageFile : string) : string :=
  collaborator_path pageFile "/loading.tsx".

Definition dataFunctionFilePath (pageFile : string) : string :=
  collaborator_path pageFile "/data.ts".

Definition isLoadingComponentCreated (pageFile : string) : bool :=
  has _loading (loadingFilePath pageFile).

Definition isDataFunctionComponentSet (pageFile : string) : bool :=
  has _data (dataFunctionFilePath pageFile).

Definition LoadingComponent (pageFile : string) : Component :=
  if isLoadingComponentCreated pageFile
  then Lazy Loading (loadingFilePath pageFile)
  else GenericLoading.

(** The promise made by calling the data loader, named by its key. *)
Definition dataFunctionImportModule (pageFile : string) : option string :=
  if isDataFunctionComponentSet pageFile
  then Some (dataFunctionFilePath pageFile)
  else None.

(** The element of a page directly under the base path (lines 159-169 and
    176-186). *)
Definition root_leaf_element (pageFile : string) : Element :=
  Suspense (Render (LoadingComponent pageFile))
    (if isDataFunctionComponentSet pageFile
     then DataLoaderComponent (Lazy Pages pageFile)
            (LoadingComponent pageFile) (dataFunctionImportModule pageFile)
     else Render (Lazy Pages pageFile)).

(** The element of a page under a directory (lines 199-201 and 208-210). *)
Definition nested_leaf_element (pageFile : string) : Element :=
  Suspense (Render (LoadingComponent pageFile)) (Render (Lazy Pages pageFile)).

(** The object [_children] of lines 227-256. *)
Definition directory_node (pageFile carriedPath routeOrFile : string)
  : RouteObject :=
  let Layout :=
    if has _layouts (BASE_PAGES_PATH +:+ carriedPath +:+ "/layout.tsx")
    then Lazy Layouts (BASE_PAGES_PATH +:+ carriedPath +:+ "/layout.tsx")
    else GenericLayout in
  let hasError := has _error (BASE_PAGES_PATH +:+ carriedPath +:+ "/error.tsx") in
  let ErrorBoundaryComponent :=
    if hasError
    then Lazy Errors (BASE_PAGES_PATH +:+ carriedPath +:+ "/error.tsx")
    else GenericErrorBoundaryPlaceholder in
  {| path := Some (pathToRoute routeOrFile);
     index := false;
     element :=
       if hasError
       then ErrorBoundary (Render ErrorBoundaryComponent)
              (Suspense (Render (LoadingComponent pageFile))
                 (RenderLayout Layout Outlet))
       else Suspense (Render (LoadingComponent pageFile))
              (RenderLayout Layout Outlet);
     children := Some [] |}.

(** The variables the inner loop changes, with the tree. *)
Record Walk := mkWalk {
  tree : RouteObject;
  currentChildren : ChildrenRef;
  carriedPath : string
}.

(** One iteration of [for (const routeOrFile of splittedRoute)]. *)
Definition walk_segment (pageFile : string) (w : Walk) (routeOrFile : string)
  : Walk :=
  if Js.endsWith ".tsx" routeOrFile then
    let leaf :=
      if String.eqb routeOrFile "index.tsx"
      then {| path := None; index := true;
              element := nested_leaf_element pageFile; children := None |}
      else {| path := Js.pop (Js.split "/" (pathToRoute pageFile));
              index := false;
              element := nested_leaf_element pageFile; children := None |} in
    mkWalk (push (currentChildren w) leaf (tree w))
      (currentChildren w) (carriedPath w)
  else
    let carriedPath' := carriedPath w +:+ "/" +:+ routeOrFile in
    match currentChildren w with
    | InTree p =>
        match children_at p (tree w) with
        | Some cs =>
            match list_find (fun child => path child = Some carriedPath') cs with
            | Some (i, lastChildren) =>
                mkWalk (tree w)
                  (match children lastChildren with
                   | Some _ => InTree (p ++ [i])
                   | None => Undefined
                   end)
                  carriedPath'
            | None =>
                mkWalk
                  (push_at p (directory_node pageFile carriedPath' routeOrFile)
                     (tree w))
                  (InTree (p ++ [length cs]))
                  carriedPath'
            end
        | None => mkWalk (tree w) Orphan carriedPath'
        end
    | Undefined | Orphan => mkWalk (tree w) Orphan carriedPath'
    end.

(** One iteration of [for (const pageFile of Object.keys(_pages))]. *)
Definition add_page (root : RouteObject) (pageFile : string) : RouteObject :=
  match splittedRoute pageFile with
  | [file] =>
      if String.eqb file "index.tsx"
      then push (InTree [])
             {| path := None; index := true;
                element := root_leaf_element pageFile; children := None |}
             root
      else push (InTree [])
             {| path := Some (pathToRoute pageFile); index := false;
                element := root_leaf_element pageFile; children := None |}
             root
  | segments =>
      tree (fold_left (walk_segment pageFile) segments
              (mkWalk root (InTree []) ""))
  end.

Definition routes : list RouteObject :=
  [fold_left add_page _pages root_route].

End Router.

(** ** Growth of a tree

    [grows r r'] says that [r'] is [r] with nodes added at the end of some
    children arrays: every node of [r] is in [r'] at the same position, with
    the same [path], [index] and [element], and whatever a children array of
    [r'] has more than the array of [r] comes after the nodes of [r]. *)
Inductive grows : RouteObject -> RouteObject -> Prop :=
| grows_leaf p i e :
    grows (mkRoute p i e None) (mkRoute p i e None)
| grows_node p i e old new added :
    Forall2 grows old new ->
    grows (mkRoute p i e (Some old)) (mkRoute p i e (Some (new ++ added))).

(** ** The effect, run again

    The effect has [dataFunctionImportModule] as its only dependency: when
    the prop changes it runs again, on the state cells as the run before
    left them.  [rerun s m] is the state after a run of the effect that
    starts in [s]. *)
Definition rerun (s : Bridge.State)
    (m : option (Promise Bridge.DataModule)) : Bridge.State :=
  fold_left Bridge.apply (fst (Bridge.loadData m)) s.

(** ** Setters and functions

    A [useState] setter stores its argument, unless the argument is a
    function: then it calls the function with the state of the cell and
    stores what the function returns.  [JsValue] holds the values that
    are not functions, and for them [Bridge.apply] is the setter.
    [SetStateAction] adds the functions, each given by what it returns
    for a previous state. *)
Inductive SetStateAction :=
| Value (v : JsValue)
| Updater (f : JsValue -> JsValue).

(** What [setX(action)] leaves in a cell that holds [previous]. *)
Definition set_state (previous : JsValue) (action : SetStateAction)
  : JsValue :=
  match action with
  | Value v => v
  | Updater f => f previous
  end.

(** The [loadData] closure when the data function may resolve to a
    function; [previous] is the [data] cell when the effect starts, which
    nothing changes before [setData(result)]. *)
Definition loadData_any (previous : JsValue)
    (dataFunctionImportModule : option (Promise (Promise SetStateAction)))
  : Bridge.Async unit :=
  Bridge.finally
    (Bridge.try_catch
       (Bridge.bind (Bridge.do (Bridge.setLoading true)) (fun _ =>
        match dataFunctionImportModule with
        | Some importing =>
            Bridge.bind (Bridge.await importing) (fun dataFunction =>
            Bridge.bind (Bridge.await dataFunction) (fun result =>
            Bridge.do (Bridge.setData (set_state previous result))))
        | None => Bridge.ret tt
        end))
       (fun err => Bridge.do (Bridge.setError err)))
    (Bridge.do (Bridge.setLoading false)).

(** ** The nodes of a tree *)

(** [P] holds of a route and of everything under it. *)
Fixpoint all_nodes (P : RouteObject -> bool) (r : RouteObject) : bool :=
  P r
  && match r with
     | mkRoute _ _ _ (Some cs) => forallb (all_nodes P) cs
     | mkRoute _ _ _ None => true
     end.

(** The element ends, under boundaries, on a layout around an outlet. *)
Fixpoint passes_outlet (e : Element) : bool :=
  match e with
  | RenderLayout _ Outlet => true
  | Suspense _ child => passes_outlet child
  | ErrorBoundary _ child => passes_outlet child
  | _ => false
  end.

(** The page a leaf element shows inside its suspension boundary, bare or
    through the bridge. *)
Definition page_of (e : Element) : option string :=
  match e with
  | Suspense _ (Render (Lazy Pages pageFile)) => Some pageFile
  | Suspense _ (DataLoaderComponent (Lazy Pages pageFile) _ _) => Some pageFile
  | _ => None
  end.

(** The two kinds of nodes: a node with a children array has a path, is
    not an index route and passes an outlet on; a node without one is an
    index route or has a path, not both, and shows one of the pages. *)
Definition node_ok (pages : list string) (r : RouteObject) : bool :=
  match children r with
  | Some _ =>
      negb (index r) && bool_decide (is_Some (path r))
      && passes_outlet (element r)
  | None =>
      xorb (index r) (bool_decide (is_Some (path r)))
      && match page_of (element r) with
         | Some pageFile => bool_decide (pageFile ∈ pages)
         | None => false
         end
  end.

(** A route without its elements. *)
Fixpoint shape (r : RouteObject) : RouteObject :=
  match r with
  | mkRoute p i _ (Some cs) => mkRoute p i Null (Some (map shape cs))
  | mkRoute p i _ None => mkRoute p i Null None
  end.

(** Two states of the walk that differ in elements only. *)
Definition alike (w1 w2 : Walk) : Prop :=
  shape (tree w1) = shape (tree w2)
  /\ currentChildren w1 = currentChildren w2
  /\ carriedPath w1 = carriedPath w2.

(** ** The node of a page *)

(** The key of the page made of these segments under the base path. *)
Definition page_path (segments : list string) : string :=
  BASE_PAGES_PATH +:+ "/" +:+ Js.join "/" segments.

Section Placement.

Variables _layouts _loading _error _data : gset string.

(** The leaf of lines 196-212, for the file name [file]. *)
Definition nested_leaf (pageFile file : string) : RouteObject :=
  if String.eqb file "index.tsx"
  then {| path := None; index := true;
          element := nested_leaf_element _loading pageFile;
          children := None |}
  else {| path := Js.pop (Js.split "/" (pathToRoute pageFile));
          index := false;
          element := nested_leaf_element _loading pageFile;
          children := None |}.

(** The leaf of lines 156-188. *)
Definition root_leaf (pageFile file : string) : RouteObject :=
  if String.eqb file "index.tsx"
  then {| path := None; index := true;
          element := root_leaf_element _loading _data pageFile;
          children := None |}
  else {| path := Some (pathToRoute pageFile); index := false;
          element := root_leaf_element _loading _data pageFile;
          children := None |}.

(** Directory nodes one inside the other, for the directory names [dirs]
    below the carried path [carried], around the leaf of [file]. *)
Fixpoint chain (pageFile carried : string) (dirs : list string)
    (file : string) : RouteObject :=
  match dirs with
  | [] => nested_leaf pageFile file
  | d :: ds =>
      let carried' := carried +:+ "/" +:+ d in
      let node := directory_node _layouts _loading _error pageFile carried' d in
      mkRoute (path node) (index node) (element node)
        (Some [chain pageFile carried' ds file])
  end.

(** What a page adds to the children of the root when nothing is in its
    way. *)
Definition node_of (pageFile : string) : RouteObject :=
  match splittedRoute pageFile with
  | [file] => root_leaf pageFile file
  | segments =>
      chain pageFile "" (removelast segments) (List.last segments "")
  end.

(** The first directory of a page that is not directly under the base
    path. *)
Definition first_directory (pageFile : string) : option string :=
  match splittedRoute pageFile with
  | d :: _ :: _ => Some d
  | _ => None
  end.

(** A page whose segments are directory names (not empty, not ending in
    [.tsx]) and then a [.tsx] file name. *)
Definition regular_page (pageFile : string) : bool :=
  forallb (fun d => negb (String.eqb d "") && negb (Js.endsWith ".tsx" d))
    (removelast (splittedRoute pageFile))
  && Js.endsWith ".tsx" (List.last (splittedRoute pageFile) "").

(** [earlier] is a page directly under the base path whose route is the
    carried path of the first directory of [later]. *)
Definition shadows (earlier later : string) : bool :=
  match splittedRoute earlier, first_directory later with
  | [file], Some d =>
      negb (String.eqb file "index.tsx")
      && String.eqb (pathToRoute earlier) ("/" +:+ d)
  | _, _ => false
  end.

Fixpoint no_shadowing (pages : list string) : bool :=
  match pages with
  | [] => true
  | pageFile :: rest =>
      forallb (fun later => negb (shadows pageFile later)) rest
      && no_shadowing rest
  end.

End Placement.

(** ** The entry of a node *)

(** [grows_by Q r r'] is [grows r r'] with a check on what is added: every
    node that [r'] has more than [r], and everything under it, passes
    [Q]. *)
Inductive grows_by (Q : RouteObject -> bool)
  : RouteObject -> RouteObject -> Prop :=
| grows_by_leaf p i e :
    grows_by Q (mkRoute p i e None) (mkRoute p i e None)
| grows_by_node p i e old new added :
    Forall2 (grows_by Q) old new ->
    Forall (fun a => all_nodes Q a = true) added ->
    grows_by Q (mkRoute p i e (Some old)) (mkRoute p i e (Some (new ++ added))).

(** The node is made from the entry [pageFile]: a leaf shows the
    component of that page, and a node with a children array is named
    after one of the segments of that page. *)
Definition made_for (pageFile : string) (n : RouteObject) : bool :=
  match children n with
  | None => bool_decide (page_of (element n) = Some pageFile)
  | Some _ =>
      existsb (fun seg => bool_decide (path n = Some (pathToRoute seg)))
        (splittedRoute pageFile)
  end.

Section Entries.

Variables _layouts _loading _error _data : gset string.
Variable _pages : list string.

(** The tree under [_routes[0]] when the outer loop has done its first
    [k] iterations. *)
Definition tree_after (k : nat) : RouteObject :=
  fold_left (add_page _layouts _loading _error _data) (take k _pages)
    (root_route _layouts _error).

(** The node at the position [q] is pushed by the iteration for the entry
    number [k]: it is not in the tree before that iteration and it is in
    the tree after it. *)
Definition created_at (q : list nat) (k : nat) : Prop :=
  node_at q (tree_after k) = None
  /\ is_Some (node_at q (tree_after (S k))).

End Entries.

(** * Properties of the Data-Loading Bridge *)

Module BridgeFacts.
Import Bridge.

Lemma loadData_resolving V :
  loadData (resolving V) =
  ([setLoading true; setData V; setLoading false], Normal tt).
Proof. reflexivity. Qed.

Lemma loadData_rejecting E :
  loadData (rejecting E) =
  ([setLoading true; setError E; setLoading false], Normal tt).
Proof. reflexivity. Qed.

Lemma loadData_none :
  loadData None = ([setLoading true; setLoading false], Normal tt).
Proof. reflexivity. Qed.

(** The effect never lets a rejection out: whatever the promises do, the
    promise of [loadData()] is not rejected. *)
Lemma loadData_catches m : escaped m = None.
Proof.
  destruct m as [[| [[| V | E]] | E]|]; reflexivity.
Qed.

(** While the effect has not finished the bridge shows the loading
    indicator. *)
Lemma pending_import_keeps_loading C L :
  renders C L (Some Pending) = [Render L; Render L]
  /\ settled (Some Pending) = false.
Proof. split; reflexivity. Qed.

(** A rejected import of the data module is handled like a rejection of
    the data function. *)
Lemma import_rejection_shows_notice msg C L :
  final_render C L (Some (Rejected (JError msg))) = ErrorNotice (JString msg).
Proof. reflexivity. Qed.

(** The values the source's [if (data)] takes for absent. *)
Lemma listed_values_falsy :
  Forall (fun v => truthy v = false)
    [JNull; JUndefined; JNumber 0; JString ""; JBool false; JNaN].
Proof. repeat constructor. Qed.

(** C5, as stated, fails: a data function that resolves to [0] leaves the
    bridge with nothing rendered, not with the target component. *)
Lemma C5_counterexample :
  settled (resolving (JNumber 0)) = true
  /\ final_render (Lazy Pages "/src/pages/index.tsx") GenericLoading
       (resolving (JNumber 0)) = Null
  /\ final_render (Lazy Pages "/src/pages/index.tsx") GenericLoading
       (resolving (JNumber 0))
     <> RenderWithData (Lazy Pages "/src/pages/index.tsx") (JNumber 0).
Proof. repeat split; discriminate. Qed.

(** C5 (amended): for every truthy value [V] that is not a function
    (the values of [JsValue]), when the data function is present and
    resolves to [V], the effect runs to its end, the bridge leaves the
    loading state and its last render is the target component with
    [initialData = V]; every render before it is the loading indicator.
    A function is not stored by [setData] but called:
    [SetterFacts.function_value_is_called]. *)
Theorem C5_truthy_value_reaches_target (V : JsValue) (C L : Component) :
  truthy V = true ->
  settled (resolving V) = true
  /\ loading (final_state (resolving V)) = false
  /\ final_render C L (resolving V) = RenderWithData C V
  /\ renders C L (resolving V)
     = [Render L; Render L; Render L; RenderWithData C V].
Proof.
  intros HV.
  assert (Hlast : final_render C L (resolving V) = RenderWithData C V).
  { unfold final_render, final_state. rewrite loadData_resolving. simpl.
    unfold render. simpl. now rewrite HV. }
  repeat split; try reflexivity; try exact Hlast.
  unfold renders, states. rewrite loadData_resolving. simpl.
  do 4 f_equal. exact Hlast.
Qed.

Lemma C5_truthy_value_reaches_target_witness :
  truthy (JObject [("id", JNumber 1)]) = true
  /\ final_render (Lazy Pages "/src/pages/index.tsx") GenericLoading
       (resolving (JObject [("id", JNumber 1)]))
     = RenderWithData (Lazy Pages "/src/pages/index.tsx")
         (JObject [("id", JNumber 1)]).
Proof.
  split; [reflexivity |].
  apply (C5_truthy_value_reaches_target (JObject [("id", JNumber 1)])
           (Lazy Pages "/src/pages/index.tsx") GenericLoading).
  reflexivity.
Defined.

(** C6: for every error [E] (an [Error] object with a message), when the
    data function rejects with [E] the last render is the failure notice
    with [E]'s message, no render of the mount is the target component, and
    the rejection is caught inside the effect: nothing is thrown to the
    enclosing boundaries. *)
Theorem C6_rejection_shows_notice (msg : string) (C L : Component) :
  settled (rejecting (JError msg)) = true
  /\ final_render C L (rejecting (JError msg)) = ErrorNotice (JString msg)
  /\ existsb renders_target (renders C L (rejecting (JError msg))) = false
  /\ escaped (rejecting (JError msg)) = None.
Proof. repeat split. Qed.

(** C7, as stated, fails: without a data function the bridge ends on
    [null], and no render of the mount is the target component. *)
Lemma C7_counterexample :
  final_render (Lazy Pages "/src/pages/index.tsx") GenericLoading None = Null
  /\ ~ In (Render (Lazy Pages "/src/pages/index.tsx"))
        (renders (Lazy Pages "/src/pages/index.tsx") GenericLoading None)
  /\ existsb renders_target
       (renders (Lazy Pages "/src/pages/index.tsx") GenericLoading None)
     = false.
Proof.
  repeat split. simpl. intros [H | [H | [H | []]]]; discriminate.
Qed.

(** C7 (amended): given no data function, the bridge shows the loading
    indicator while the effect runs and then renders nothing; it does not
    render the target component. *)
Theorem C7_no_data_function_renders_nothing (C L : Component) :
  settled None = true
  /\ renders C L None = [Render L; Render L; Null]
  /\ final_render C L None = Null
  /\ existsb renders_target (renders C L None) = false.
Proof. repeat split. Qed.

(** C10: when the data function resolves to a falsy value, the effect
    ends, the bridge leaves the loading state, and it renders [null]:
    not the target, not the loading indicator, not a failure notice. *)
Theorem C10_falsy_value_renders_nothing (V : JsValue) (C L : Component) :
  truthy V = false ->
  settled (resolving V) = true
  /\ loading (final_state (resolving V)) = false
  /\ final_render C L (resolving V) = Null.
Proof.
  intros HV. repeat split.
  unfold final_render, final_state. rewrite loadData_resolving. simpl.
  unfold render. simpl. now rewrite HV.
Qed.

Lemma C10_falsy_value_renders_nothing_witness :
  truthy (JNumber 0) = false
  /\ final_render (Lazy Pages "/src/pages/index.tsx") GenericLoading
       (resolving (JNumber 0)) = Null.
Proof.
  split; [reflexivity |].
  apply (C10_falsy_value_renders_nothing (JNumber 0)
           (Lazy Pages "/src/pages/index.tsx") GenericLoading).
  reflexivity.
Defined.

End BridgeFacts.

(** * Properties of route trees *)

Module TreeFacts.

(** Induction on route objects that reaches the children. *)
Lemma RouteObject_nested_ind (P : RouteObject -> Prop) :
  (forall p i e, P (mkRoute p i e None)) ->
  (forall p i e cs, Forall P cs -> P (mkRoute p i e (Some cs))) ->
  forall r, P r.
Proof.
  intros Hleaf Hnode. fix IH 1. intros [p i e [cs |]].
  - apply Hnode. induction cs as [| c cs IHcs]; constructor.
    + apply IH.
    + exact IHcs.
  - apply Hleaf.
Qed.

Lemma grows_refl r : grows r r.
Proof.
  induction r as [p i e | p i e cs IH] using RouteObject_nested_ind.
  - constructor.
  - rewrite <- (app_nil_r cs) at 2. constructor.
    induction IH; constructor; auto.
Qed.

Lemma grows_trans a b c : grows a b -> grows b c -> grows a c.
Proof.
  revert b c.
  induction a as [p i e | p i e cs IH] using RouteObject_nested_ind;
    intros b c Hab Hbc.
  - inversion Hab; subst. exact Hbc.
  - inversion Hab as [| ? ? ? ? new added Hold]; subst.
    inversion Hbc as [| ? ? ? ? new' added' Hnew]; subst.
    apply Forall2_app_inv_l in Hnew as (k1 & k2 & Hk1 & _ & ->).
    rewrite <- app_assoc. constructor.
    clear Hab Hbc. revert new k1 Hold Hk1.
    induction IH as [| x cs Hx _ IHcs]; intros new k1 Hold Hk1.
    + inversion Hold; subst. inversion Hk1; subst. constructor.
    + inversion Hold; subst. inversion Hk1; subst. constructor; eauto.
Qed.

(** The fields [push] leaves alone. *)
Lemma push_at_fields p n r :
  path (push_at p n r) = path r
  /\ index (push_at p n r) = index r
  /\ element (push_at p n r) = element r
  /\ (children r = None -> children (push_at p n r) = None).
Proof.
  destruct p, r as [? ? ? [cs |]]; simpl; auto.
  all: repeat split; discriminate.
Qed.

Lemma grows_push_at p n r : grows r (push_at p n r).
Proof.
  revert r. induction p as [| i p IH]; intros [pa ix e [cs |]]; simpl.
  - apply (grows_node pa ix e cs cs [n]).
    induction cs; constructor; auto using grows_refl.
  - constructor.
  - rewrite <- (app_nil_r (alter _ _ _)). constructor.
    apply Forall2_alter_r.
    + induction cs; constructor; auto using grows_refl.
    + intros x y _ _ Hxy. eapply grows_trans; [exact Hxy | apply IH].
  - constructor.
Qed.

Lemma grows_push cur n r : grows r (push cur n r).
Proof. destruct cur; simpl; auto using grows_push_at, grows_refl. Qed.

(** What [push] and the reads see of each other. *)
Lemma children_at_push_at p n r cs :
  children_at p r = Some cs ->
  children_at p (push_at p n r) = Some (cs ++ [n]).
Proof.
  unfold children_at. revert r.
  induction p as [| i p IH]; intros [pa ix e [l |]]; simpl; try discriminate.
  - intros [= ->]. reflexivity.
  - destruct (l !! i) as [c |] eqn:Hi; [| discriminate].
    intros Hc. rewrite list_lookup_alter_eq, Hi. simpl. apply IH, Hc.
Qed.

Lemma node_at_snoc p i r cs :
  children_at p r = Some cs ->
  node_at (p ++ [i]) r = cs !! i.
Proof.
  unfold children_at. revert r.
  induction p as [| j p IH]; intros [pa ix e [l |]]; simpl; try discriminate.
  - intros [= ->]. destruct (cs !! i); reflexivity.
  - destruct (l !! j) as [c |]; [| discriminate]. apply IH.
Qed.

(** Growth keeps every node where it is. *)
Lemma grows_children r r' cs :
  grows r r' -> children r = Some cs ->
  exists cs' added, children r' = Some (cs' ++ added) /\ Forall2 grows cs cs'.
Proof. intros [] [= <-]; simpl; eauto. Qed.

Lemma grows_node_at p r r' n :
  grows r r' -> node_at p r = Some n ->
  exists n', node_at p r' = Some n' /\ grows n n'.
Proof.
  revert r r'. induction p as [| i p IH]; intros r r' Hg; simpl.
  - intros [= <-]. eauto.
  - destruct (children r) as [cs |] eqn:Hcs; [| discriminate].
    destruct (cs !! i) as [c |] eqn:Hi; [| discriminate].
    destruct (grows_children _ _ _ Hg Hcs) as (cs' & added & -> & Hall).
    destruct (Forall2_lookup_l _ _ _ _ _ Hall Hi) as (c' & Hi' & Hc).
    rewrite (lookup_app_l_Some _ _ _ _ Hi'). eauto.
Qed.

End TreeFacts.

(** * Properties of the string functions *)

Module StringFacts.

Lemma app_String c s t : String c s +:+ t = String c (s +:+ t).
Proof. reflexivity. Qed.

Lemma app_Empty t : "" +:+ t = t.
Proof. reflexivity. Qed.

Lemma app_Empty_r s : s +:+ "" = s.
Proof. induction s as [| c s IH]; [| rewrite app_String, IH]; reflexivity. Qed.

Lemma string_app_assoc s t u : (s +:+ t) +:+ u = s +:+ t +:+ u.
Proof.
  induction s as [| c s IH]; [reflexivity |].
  now rewrite !app_String, IH.
Qed.

Lemma string_length_app s t :
  String.length (s +:+ t) = String.length s + String.length t.
Proof.
  induction s as [| c s IH]; [reflexivity |].
  rewrite app_String. simpl. now rewrite IH.
Qed.

Lemma includes_app c s t :
  Js.includes c (s +:+ t) = Js.includes c s || Js.includes c t.
Proof.
  induction s as [| d s IH]; [reflexivity |].
  rewrite app_String. simpl. now rewrite IH, orb_assoc.
Qed.

(** The fixpoints, unfolded once whatever the string is. *)
Lemma replace_first_unfold pat rep s :
  Js.replace_first pat rep s =
  if String.prefix pat s then rep +:+ Js.drop (String.length pat) s
  else match s with
       | EmptyString => EmptyString
       | String c s' => String c (Js.replace_first pat rep s')
       end.
Proof. destruct s; reflexivity. Qed.

Lemma strip_suffix_unfold suf s :
  Js.strip_suffix suf s =
  if String.eqb s suf then EmptyString
  else match s with
       | EmptyString => EmptyString
       | String c s' => String c (Js.strip_suffix suf s')
       end.
Proof. destruct s; reflexivity. Qed.

Lemma prefix_app pat s : String.prefix pat (pat +:+ s) = true.
Proof.
  induction pat as [| c pat IH].
  - destruct s; reflexivity.
  - rewrite app_String. simpl. destruct (ascii_dec c c); [exact IH | congruence].
Qed.

Lemma drop_app pat s : Js.drop (String.length pat) (pat +:+ s) = s.
Proof. induction pat as [| c pat IH]; [reflexivity | exact IH]. Qed.

(** Removing a pattern the string starts with. *)
Lemma replace_first_prefix pat s : Js.replace_first pat "" (pat +:+ s) = s.
Proof.
  rewrite replace_first_unfold, prefix_app, drop_app. reflexivity.
Qed.

(** Removing a suffix the string ends with. *)
Lemma strip_suffix_app suf s : Js.strip_suffix suf (s +:+ suf) = s.
Proof.
  induction s as [| c s IH]; rewrite strip_suffix_unfold.
  - rewrite app_Empty, String.eqb_refl. reflexivity.
  - destruct (String.eqb_spec (String c s +:+ suf) suf) as [Heq | _].
    + apply (f_equal String.length) in Heq.
      rewrite string_length_app in Heq. simpl in Heq. lia.
    + rewrite app_String, IH. reflexivity.
Qed.

(** A string without ["["] has no bracket group. *)
Lemma brackets_scan_plain_app s t :
  Js.includes "[" s = false ->
  Js.brackets_scan None (s +:+ t) = s +:+ Js.brackets_scan None t.
Proof.
  induction s as [| c s IH]; [reflexivity |].
  simpl. intros [Hc Hs]%orb_false_elim.
  rewrite !app_String. simpl. rewrite Hc, IH by exact Hs. reflexivity.
Qed.

Lemma replace_brackets_plain s :
  Js.includes "[" s = false -> Js.replace_brackets s = s.
Proof.
  intros Hs. unfold Js.replace_brackets.
  rewrite <- (app_Empty_r s) at 1.
  rewrite brackets_scan_plain_app by exact Hs. simpl. apply app_Empty_r.
Qed.

(** A bracket group: a non-empty name without ["]"], then ["]"]. *)
Lemma brackets_scan_group run name rest :
  Js.includes "]" name = false ->
  run +:+ name <> "" ->
  Js.brackets_scan (Some run) (name +:+ String "]" rest)
  = ":" +:+ run +:+ name +:+ Js.brackets_scan None rest.
Proof.
  revert run. induction name as [| c name IH]; intros run Hname Hne.
  - rewrite app_Empty_r in Hne. rewrite !app_Empty. simpl.
    destruct run; [congruence | reflexivity].
  - simpl in Hname. apply orb_false_elim in Hname as [Hc Hname].
    rewrite app_String. simpl. rewrite Hc.
    rewrite IH; [| exact Hname |].
    + now rewrite !string_app_assoc.
    + rewrite string_app_assoc. destruct run; discriminate.
Qed.

Lemma replace_brackets_group name rest :
  Js.includes "]" name = false -> name <> "" ->
  Js.replace_brackets (String "[" (name +:+ String "]" rest))
  = ":" +:+ name +:+ Js.replace_brackets rest.
Proof.
  intros Hname Hne. unfold Js.replace_brackets. simpl.
  now rewrite brackets_scan_group.
Qed.

(** A suffix that starts with the separator is decided by the last
    segment alone. *)
Lemma strip_suffix_no_separator r f :
  Js.includes "/" f = false -> Js.strip_suffix (String "/" r) f = f.
Proof.
  induction f as [| c f IH]; [reflexivity |].
  simpl. intros [Hc Hf]%orb_false_elim. rewrite Hc, IH by exact Hf.
  reflexivity.
Qed.

Lemma strip_suffix_last_segment r x f :
  Js.includes "/" r = false ->
  Js.includes "/" f = false ->
  Js.strip_suffix (String "/" r) (x +:+ String "/" f)
  = if String.eqb f r then x else x +:+ String "/" f.
Proof.
  intros Hr Hf. induction x as [| c x IH].
  - rewrite !app_Empty. simpl.
    destruct (String.eqb f r); [reflexivity |].
    now rewrite strip_suffix_no_separator.
  - rewrite !app_String. simpl.
    destruct (String.eqb_spec (x +:+ String "/" f) r) as [Heq | _].
    + apply (f_equal (Js.includes "/")) in Heq.
      rewrite includes_app, Hr in Heq. simpl in Heq.
      rewrite orb_true_r in Heq. discriminate.
    + rewrite IH. destruct (Ascii.eqb c "/"), (String.eqb f r); reflexivity.
Qed.

(** A pattern whose first character is not in the string is not found. *)
Lemma replace_first_absent c pat rep s :
  Js.includes c s = false -> Js.replace_first (String c pat) rep s = s.
Proof.
  induction s as [| d s IH]; [reflexivity |].
  simpl. intros [Hd Hs]%orb_false_elim.
  destruct (ascii_dec c d) as [-> | _].
  - rewrite Ascii.eqb_refl in Hd. discriminate.
  - now rewrite IH.
Qed.

Lemma strip_suffix_not_endsWith suf s :
  Js.endsWith suf s = false -> Js.strip_suffix suf s = s.
Proof.
  induction s as [| d s IH]; simpl.
  - now intros [-> _]%orb_false_elim.
  - intros [-> Hs]%orb_false_elim. now rewrite IH.
Qed.

(** The bracket scan adds no separator and loses no character. *)
Lemma brackets_scan_no_separator pending s :
  Js.includes "/" s = false ->
  (forall run, pending = Some run -> Js.includes "/" run = false) ->
  Js.includes "/" (Js.brackets_scan pending s) = false.
Proof.
  revert pending. induction s as [| d s IH]; intros pending Hs Hrun.
  - destruct pending as [run |]; simpl; auto.
  - simpl in Hs. apply orb_false_elim in Hs as [Hd Hs].
    destruct pending as [run |]; simpl.
    + destruct (Ascii.eqb d "]").
      * destruct run as [| r run].
        -- rewrite includes_app, IH by (assumption || discriminate).
           reflexivity.
        -- rewrite !includes_app, (Hrun _ eq_refl), IH
             by (assumption || discriminate).
           reflexivity.
      * apply IH; [exact Hs |]. intros run' [= <-].
        rewrite includes_app, (Hrun _ eq_refl). simpl. now rewrite Hd.
    + destruct (Ascii.eqb d "[").
      * apply IH; [exact Hs |]. now intros run [= <-].
      * simpl. rewrite Hd. apply IH; [exact Hs | discriminate].
Qed.

Lemma brackets_scan_nonempty pending s :
  s <> "" \/ pending <> None -> Js.brackets_scan pending s <> "".
Proof.
  revert pending. induction s as [| d s IH]; intros pending Hne.
  - destruct pending; [discriminate | destruct Hne; congruence].
  - destruct pending as [run |]; simpl.
    + destruct (Ascii.eqb d "]").
      * destruct run; discriminate.
      * apply IH. right. discriminate.
    + destruct (Ascii.eqb d "["); [| discriminate].
      apply IH. right. discriminate.
Qed.

(** [pathToRoute] on a directory name: only the brackets change, and the
    result has no separator. *)
Lemma pathToRoute_segment seg :
  seg <> "" ->
  Js.includes "/" seg = false ->
  Js.endsWith ".tsx" seg = false ->
  pathToRoute seg = Js.replace_brackets seg
  /\ Js.includes "/" (pathToRoute seg) = false.
Proof.
  intros Hne Hsep Htsx.
  assert (Hscan : Js.includes "/" (Js.replace_brackets seg) = false)
    by (apply brackets_scan_no_separator; [exact Hsep | discriminate]).
  assert (Heq : pathToRoute seg = Js.replace_brackets seg).
  { unfold pathToRoute, BASE_PAGES_PATH.
    rewrite (replace_first_absent "/" "src/pages") by exact Hsep.
    rewrite (strip_suffix_not_endsWith ".tsx") by exact Htsx.
    rewrite (strip_suffix_no_separator "index") by exact Hscan.
    rewrite (strip_suffix_no_separator "") by exact Hscan.
    pose proof (brackets_scan_nonempty None seg (or_introl Hne)) as Hout.
    unfold Js.replace_brackets. now destruct (Js.brackets_scan None seg). }
  split; [exact Heq | now rewrite Heq].
Qed.

(** [pathToRoute] on a file under the base path: a directory part [dir]
    (empty, or a ["/"] and segments) without brackets and a file name
    [file] without separator or bracket. *)
Lemma pathToRoute_file dir file :
  Js.includes "[" dir = false ->
  Js.includes "[" file = false ->
  Js.includes "/" file = false ->
  file <> "" -> file <> "index" ->
  pathToRoute (BASE_PAGES_PATH +:+ dir +:+ "/" +:+ file +:+ ".tsx")
  = dir +:+ "/" +:+ file.
Proof.
  intros Hdir Hfile Hsep Hne Hindex. unfold pathToRoute.
  rewrite replace_first_prefix.
  replace (dir +:+ "/" +:+ file +:+ ".tsx")
    with ((dir +:+ "/" +:+ file) +:+ ".tsx")
    by now rewrite !string_app_assoc.
  rewrite strip_suffix_app, replace_brackets_plain.
  2: { rewrite !includes_app, Hdir, Hfile. reflexivity. }
  change ("/" +:+ file) with (String "/" file).
  rewrite (strip_suffix_last_segment "index") by (reflexivity || exact Hsep).
  destruct (String.eqb_spec file "index") as [| _]; [contradiction |].
  rewrite (strip_suffix_last_segment "") by (reflexivity || exact Hsep).
  destruct (String.eqb_spec file "") as [| _]; [contradiction |].
  destruct dir; reflexivity.
Qed.

(** [pathToRoute] on the index file of a directory. *)
Lemma pathToRoute_index dir name :
  Js.includes "[" dir = false ->
  Js.includes "[" name = false ->
  Js.includes "/" name = false ->
  pathToRoute (BASE_PAGES_PATH +:+ dir +:+ "/" +:+ name +:+ "/index.tsx")
  = Js.or_else
      (if String.eqb name "" then dir else dir +:+ "/" +:+ name) "/".
Proof.
  intros Hdir Hname Hsep. unfold pathToRoute.
  rewrite replace_first_prefix.
  replace (dir +:+ "/" +:+ name +:+ "/index.tsx")
    with ((dir +:+ "/" +:+ name +:+ "/index") +:+ ".tsx")
    by now rewrite !string_app_assoc.
  rewrite strip_suffix_app, replace_brackets_plain.
  2: { rewrite !includes_app, Hdir, Hname. reflexivity. }
  replace (dir +:+ "/" +:+ name +:+ "/index")
    with ((dir +:+ "/" +:+ name) +:+ String "/" "index")
    by now rewrite !string_app_assoc.
  rewrite (strip_suffix_last_segment "index"), String.eqb_refl by reflexivity.
  change ("/" +:+ name) with (String "/" name).
  rewrite (strip_suffix_last_segment "") by (reflexivity || exact Hsep).
  reflexivity.
Qed.

(** [pathToRoute] on a file in a directory whose name is a parameter. *)
Lemma pathToRoute_dynamic id file :
  Js.includes "]" id = false -> id <> "" ->
  plain_name file -> file <> "" -> file <> "index" ->
  pathToRoute ("/src/pages/[" +:+ id +:+ "]/" +:+ file +:+ ".tsx")
  = "/:" +:+ id +:+ "/" +:+ file.
Proof.
  intros Hid Hne [Hsep Hfile] Hfne Hindex. unfold pathToRoute.
  change ("/src/pages/[" +:+ id +:+ "]/" +:+ file +:+ ".tsx")
    with (BASE_PAGES_PATH +:+ "/[" +:+ id +:+ "]/" +:+ file +:+ ".tsx").
  rewrite replace_first_prefix.
  replace ("/[" +:+ id +:+ "]/" +:+ file +:+ ".tsx")
    with (("/[" +:+ id +:+ "]/" +:+ file) +:+ ".tsx")
    by now rewrite !string_app_assoc.
  rewrite strip_suffix_app.
  change ("/[" +:+ id +:+ "]/" +:+ file)
    with ("/" +:+ String "[" (id +:+ String "]" ("/" +:+ file))).
  unfold Js.replace_brackets. rewrite brackets_scan_plain_app by reflexivity.
  fold (Js.replace_brackets (String "[" (id +:+ String "]" ("/" +:+ file)))).
  rewrite replace_brackets_group by assumption.
  rewrite (replace_brackets_plain ("/" +:+ file))
    by (rewrite includes_app, Hfile; reflexivity).
  replace ("/" +:+ ":" +:+ id +:+ "/" +:+ file)
    with (("/:" +:+ id) +:+ String "/" file)
    by now rewrite !string_app_assoc.
  rewrite (strip_suffix_last_segment "index") by (reflexivity || exact Hsep).
  destruct (String.eqb_spec file "index") as [| _]; [contradiction |].
  rewrite (strip_suffix_last_segment "") by (reflexivity || exact Hsep).
  destruct (String.eqb_spec file "") as [| _]; [contradiction |].
  rewrite string_app_assoc. reflexivity.
Qed.

(** C3, as stated, fails: a file named [page] is not dropped from the
    route, it is its last segment. *)
Lemma C3_counterexample :
  pathToRoute "/src/pages/a/b/page.tsx" = "/a/b/page"
  /\ pathToRoute "/src/pages/a/b/page.tsx" <> "/a/b"
  /\ pathToRoute "/src/pages/[id]/page.tsx" = "/:id/page"
  /\ pathToRoute "/src/pages/[id]/page.tsx" <> "/:id".
Proof. repeat split; discriminate. Qed.

(** C3 (amended): for all directory names [a], [b], every parameter name
    [id] and every file name [file] other than [index], the file
    [base/a/b/file.tsx] yields [/a/b/file], [base/a/index.tsx] yields [/a],
    [base/[id]/file.tsx] yields [/:id/file], and [base/index.tsx] yields
    [/].  Only an index file stands for its directory. *)
Theorem C3_pathToRoute_shapes (a b id file : string) :
  plain_name a -> plain_name b ->
  Js.includes "]" id = false -> id <> "" ->
  plain_name file -> file <> "" -> file <> "index" ->
  pathToRoute ("/src/pages/" +:+ a +:+ "/" +:+ b +:+ "/" +:+ file +:+ ".tsx")
  = "/" +:+ a +:+ "/" +:+ b +:+ "/" +:+ file
  /\ pathToRoute ("/src/pages/" +:+ a +:+ "/index.tsx") = "/" +:+ a
  /\ pathToRoute ("/src/pages/[" +:+ id +:+ "]/" +:+ file +:+ ".tsx")
     = "/:" +:+ id +:+ "/" +:+ file
  /\ pathToRoute "/src/pages/index.tsx" = "/".
Proof.
  intros [Hsa Hba] [Hsb Hbb] Hid Hne Hfile Hfne Hindex.
  repeat split.
  - replace ("/src/pages/" +:+ a +:+ "/" +:+ b +:+ "/" +:+ file +:+ ".tsx")
      with (BASE_PAGES_PATH +:+ ("/" +:+ a +:+ "/" +:+ b)
            +:+ "/" +:+ file +:+ ".tsx")
      by (rewrite !string_app_assoc; reflexivity).
    destruct Hfile as [Hsf Hbf].
    rewrite pathToRoute_file; try assumption.
    + now rewrite !string_app_assoc.
    + rewrite !includes_app, Hba, Hbb. reflexivity.
  - change ("/src/pages/" +:+ a +:+ "/index.tsx")
      with (BASE_PAGES_PATH +:+ "" +:+ "/" +:+ a +:+ "/index.tsx").
    rewrite pathToRoute_index by (reflexivity || assumption).
    destruct a; reflexivity.
  - apply pathToRoute_dynamic; assumption.
Qed.

Lemma C3_pathToRoute_shapes_witness :
  pathToRoute "/src/pages/a/b/page.tsx" = "/a/b/page"
  /\ pathToRoute "/src/pages/a/index.tsx" = "/a"
  /\ pathToRoute "/src/pages/[id]/page.tsx" = "/:id/page"
  /\ pathToRoute "/src/pages/index.tsx" = "/".
Proof.
  apply (C3_pathToRoute_shapes "a" "b" "id" "page");
    repeat split; discriminate.
Defined.

End StringFacts.

(** * Properties of the route tree builder *)

Module RouterFacts.
Import TreeFacts.

Section Builder.

Variables _layouts _loading _error _data : gset string.

Local Abbreviation walk_with := (walk_segment _layouts _loading _error).
Local Abbreviation add_with := (add_page _layouts _loading _error _data).
Local Abbreviation routes_of := (routes _layouts _loading _error _data).
Local Abbreviation root0 := (root_route _layouts _error).

Lemma grows_fields r r' :
  grows r r' ->
  path r' = path r /\ index r' = index r /\ element r' = element r
  /\ (is_Some (children r) -> is_Some (children r')).
Proof. intros []; simpl; eauto. Qed.

(** Each pass of the inner loop only appends to the tree. *)
Lemma walk_segment_grows pageFile w routeOrFile :
  grows (tree w) (tree (walk_with pageFile w routeOrFile)).
Proof.
  unfold walk_segment.
  destruct (Js.endsWith ".tsx" routeOrFile); simpl.
  - apply grows_push.
  - destruct (currentChildren w) as [p | |]; simpl; try apply grows_refl.
    destruct (children_at p (tree w)) as [cs |]; simpl; try apply grows_refl.
    destruct (list_find _ cs) as [[i found] |]; simpl.
    + apply grows_refl.
    + apply grows_push_at.
Qed.

Lemma walk_grows pageFile segments w :
  grows (tree w) (tree (fold_left (walk_with pageFile) segments w)).
Proof.
  revert w. induction segments as [| s segments IH]; intros w; simpl.
  - apply grows_refl.
  - eapply grows_trans; [apply walk_segment_grows | apply IH].
Qed.

(** Each pass of the outer loop only appends to the tree. *)
Lemma add_page_grows root pageFile : grows root (add_with root pageFile).
Proof.
  unfold add_page.
  destruct (splittedRoute pageFile) as [| file [| dir rest]].
  - apply (walk_grows pageFile [] (mkWalk root (InTree []) "")).
  - destruct (String.eqb file "index.tsx"); apply grows_push.
  - apply (walk_grows pageFile (file :: dir :: rest)
             (mkWalk root (InTree []) "")).
Qed.

Lemma add_pages_grow pages root :
  grows root (fold_left add_with pages root).
Proof.
  revert root. induction pages as [| pageFile pages IH]; intros root; simpl.
  - apply grows_refl.
  - eapply grows_trans; [apply add_page_grows | apply IH].
Qed.

(** The tree built from the entries discovered first is kept as it is by
    the entries discovered later: for every split of the input into
    [earlier ++ later], every node created for [earlier] is in the final
    tree at the same place of the same children array, and what the
    entries of [later] add to a children array comes after everything the
    entries of [earlier] put there. *)
Lemma routes_keep_earlier_tree (earlier later : list string) :
  Forall2 grows (routes_of earlier) (routes_of (earlier ++ later)).
Proof.
  unfold routes. rewrite fold_left_app.
  constructor; [apply add_pages_grow | constructor].
Qed.

(** C9: whatever the page entries, the builder returns one route; its path
    is ["/"], its element is the root layout (the module at
    [/src/pages/layout.tsx] when there is one, the generic layout
    otherwise) around an outlet, inside the error boundary of
    [/src/pages/error.tsx] exactly when that entry exists; the element is
    the one made before the loop from [_layouts] and [_error] alone, and
    the loop does not touch it. *)
Theorem C9_single_root (pages : list string) :
  exists root kids,
    routes_of pages = [root]
    /\ path root = Some "/"
    /\ index root = false
    /\ children root = Some kids
    /\ element root = element root0
    /\ element root =
       let layout :=
         RenderLayout
           (if has _layouts "/src/pages/layout.tsx"
            then Lazy Layouts "/src/pages/layout.tsx"
            else GenericLayout)
           Outlet in
       if has _error "/src/pages/error.tsx"
       then ErrorBoundary (Render (Lazy Errors "/src/pages/error.tsx")) layout
       else layout.
Proof.
  destruct (grows_fields _ _ (add_pages_grow pages root0))
    as (Hpath & Hindex & Helement & Hkids).
  destruct Hkids as [kids Hk]; [simpl; eauto |].
  exists (fold_left add_with pages root0), kids.
  repeat split; try assumption.
  rewrite Helement. unfold root_route, RootErrorBoundary, RootLayout,
    hasRootError. simpl.
  destruct (has _error _); reflexivity.
Qed.

(** C4 (amended): when the inner loop meets a directory segment and no
    child of the current array has the carried path, it appends one node
    and moves into its empty children array.  The node's element is the
    layout of the carried directory around an outlet, inside a suspension
    boundary, inside the error boundary of the carried directory when that
    directory has an error entry.  The fallback of the suspension boundary
    is the loading indicator of the page entry being added, that is of the
    entry's immediate directory, whatever the carried directory is; it is
    the indicator of the carried directory when the two directories are
    the same. *)
Theorem C4_directory_node_element
    (pageFile : string) (w : Walk) (routeOrFile : string)
    (p : list nat) (cs : list RouteObject) :
  Js.endsWith ".tsx" routeOrFile = false ->
  currentChildren w = InTree p ->
  children_at p (tree w) = Some cs ->
  list_find
    (fun child => path child = Some (carriedPath w +:+ "/" +:+ routeOrFile))
    cs = None ->
  let w' := walk_with pageFile w routeOrFile in
  let layout_key := BASE_PAGES_PATH +:+ carriedPath w' +:+ "/layout.tsx" in
  let error_key := BASE_PAGES_PATH +:+ carriedPath w' +:+ "/error.tsx" in
  let loading_key := loadingFilePath pageFile in
  let inner :=
    Suspense
      (Render (if has _loading loading_key then Lazy Loading loading_key
               else GenericLoading))
      (RenderLayout
         (if has _layouts layout_key then Lazy Layouts layout_key
          else GenericLayout)
         Outlet) in
  exists node,
    carriedPath w' = carriedPath w +:+ "/" +:+ routeOrFile
    /\ children_at p (tree w') = Some (cs ++ [node])
    /\ currentChildren w' = InTree (p ++ [length cs])
    /\ node_at (p ++ [length cs]) (tree w') = Some node
    /\ path node = Some (pathToRoute routeOrFile)
    /\ index node = false
    /\ children node = Some []
    /\ element node =
       (if has _error error_key
        then ErrorBoundary (Render (Lazy Errors error_key)) inner
        else inner)
    /\ (routeWithoutFile pageFile <> "" ->
        carriedPath w' = "/" +:+ routeWithoutFile pageFile ->
        loading_key = BASE_PAGES_PATH +:+ carriedPath w' +:+ "/loading.tsx").
Proof.
  intros Hdir Hcur Hcs Hfind. cbv zeta.
  unfold walk_segment. rewrite Hdir, Hcur, Hcs, Hfind. simpl.
  set (node := directory_node _ _ _ _ _ _).
  assert (Hkids : children_at p (push_at p node (tree w)) = Some (cs ++ [node]))
    by (apply children_at_push_at, Hcs).
  exists node. repeat split; try assumption.
  - rewrite (node_at_snoc _ _ _ _ Hkids).
    rewrite lookup_app_r, Nat.sub_diag; [reflexivity | lia].
  - subst node. unfold directory_node, LoadingComponent,
      isLoadingComponentCreated. simpl.
    destruct (has _error _); reflexivity.
  - intros Hne ->. unfold loadingFilePath, collaborator_path.
    destruct (routeWithoutFile pageFile); [contradiction | reflexivity].
Qed.

(** Why the lookup of lines 217-225 does not find the nodes of the
    builder: the node made for a directory name has a path without
    separator, and every carried path has one. *)
Lemma carried_path_has_separator carried routeOrFile :
  Js.includes "/" (carried +:+ "/" +:+ routeOrFile) = true.
Proof. rewrite StringFacts.includes_app. apply orb_true_r. Qed.

Lemma directory_node_never_found pageFile carried routeOrFile carried' next :
  routeOrFile <> "" ->
  Js.includes "/" routeOrFile = false ->
  Js.endsWith ".tsx" routeOrFile = false ->
  path (directory_node _layouts _loading _error pageFile carried routeOrFile)
  <> Some (carried' +:+ "/" +:+ next).
Proof.
  intros Hne Hsep Htsx. simpl. intros [= Heq].
  destruct (StringFacts.pathToRoute_segment _ Hne Hsep Htsx) as [_ Hno].
  rewrite Heq, carried_path_has_separator in Hno. discriminate.
Qed.

End Builder.

(** The scenario of C4 on one walk: [blog/layout.tsx] and [blog/error.tsx]
    are present, and the page [blog/post.tsx] is the first one added. *)
Lemma C4_directory_node_element_witness :
  Js.endsWith ".tsx" "blog" = false
  /\ exists node,
      node_at [0]
        (tree (walk_segment {["/src/pages/blog/layout.tsx"]} ∅
                 {["/src/pages/blog/error.tsx"]}
                 "/src/pages/blog/post.tsx"
                 (mkWalk
                    (root_route {["/src/pages/blog/layout.tsx"]}
                       {["/src/pages/blog/error.tsx"]})
                    (InTree []) "")
                 "blog"))
      = Some node
      /\ element node =
         ErrorBoundary (Render (Lazy Errors "/src/pages/blog/error.tsx"))
           (Suspense (Render GenericLoading)
              (RenderLayout (Lazy Layouts "/src/pages/blog/layout.tsx")
                 Outlet)).
Proof.
  split; [reflexivity |].
  destruct (C4_directory_node_element
              {["/src/pages/blog/layout.tsx"]} ∅
              {["/src/pages/blog/error.tsx"]}
              "/src/pages/blog/post.tsx"
              (mkWalk
                 (root_route {["/src/pages/blog/layout.tsx"]}
                    {["/src/pages/blog/error.tsx"]})
                 (InTree []) "")
              "blog" [] [])
    as (node & _ & _ & _ & Hat & _ & _ & _ & Helement & _);
    try reflexivity.
  exists node. split; [exact Hat | exact Helement].
Defined.

(** C4, as stated, fails: with [a/loading.tsx] present and the page
    [a/b/x.tsx], the node made for the directory [a] has the generic
    loading indicator as fallback, not the one of [a]. *)
Lemma C4_counterexample :
  routes ∅ {["/src/pages/a/loading.tsx"]} ∅ ∅ ["/src/pages/a/b/x.tsx"]
  = [mkRoute (Some "/") false (RenderLayout GenericLayout Outlet) (Some [
       mkRoute (Some "a") false
         (Suspense (Render GenericLoading)
            (RenderLayout GenericLayout Outlet))
         (Some [
            mkRoute (Some "b") false
              (Suspense (Render GenericLoading)
                 (RenderLayout GenericLayout Outlet))
              (Some [
                 mkRoute (Some "x") false
                   (Suspense (Render GenericLoading)
                      (Render (Lazy Pages "/src/pages/a/b/x.tsx")))
                   None])])])]
  /\ has {["/src/pages/a/loading.tsx"]} "/src/pages/a/loading.tsx" = true.
Proof. split; vm_compute; reflexivity. Qed.

(** The scenario of C4 on the whole builder. *)
Example blog_layout_and_error :
  routes {["/src/pages/blog/layout.tsx"]} ∅ {["/src/pages/blog/error.tsx"]} ∅
    ["/src/pages/blog/post.tsx"]
  = [mkRoute (Some "/") false (RenderLayout GenericLayout Outlet) (Some [
       mkRoute (Some "blog") false
         (ErrorBoundary (Render (Lazy Errors "/src/pages/blog/error.tsx"))
            (Suspense (Render GenericLoading)
               (RenderLayout (Lazy Layouts "/src/pages/blog/layout.tsx")
                  Outlet)))
         (Some [
            mkRoute (Some "post") false
              (Suspense (Render GenericLoading)
                 (Render (Lazy Pages "/src/pages/blog/post.tsx")))
              None])])].
Proof. vm_compute. reflexivity. Qed.

(** C1 at the scenario of the specification: the two pages under [blog]
    get a [blog] node each.  The lookup compares the carried path
    ["/blog"] with the paths of the children, and the node made for the
    directory has the path ["blog"]. *)
Theorem C1_blog_node_created_twice :
  routes ∅ ∅ ∅ ∅
    ["/src/pages/index.tsx"; "/src/pages/about.tsx";
     "/src/pages/blog/index.tsx"; "/src/pages/blog/[slug].tsx"]
  = [mkRoute (Some "/") false (RenderLayout GenericLayout Outlet) (Some [
       mkRoute None true
         (Suspense (Render GenericLoading)
            (Render (Lazy Pages "/src/pages/index.tsx")))
         None;
       mkRoute (Some "/about") false
         (Suspense (Render GenericLoading)
            (Render (Lazy Pages "/src/pages/about.tsx")))
         None;
       mkRoute (Some "blog") false
         (Suspense (Render GenericLoading)
            (RenderLayout GenericLayout Outlet))
         (Some [
            mkRoute None true
              (Suspense (Render GenericLoading)
                 (Render (Lazy Pages "/src/pages/blog/index.tsx")))
              None]);
       mkRoute (Some "blog") false
         (Suspense (Render GenericLoading)
            (RenderLayout GenericLayout Outlet))
         (Some [
            mkRoute (Some ":slug") false
              (Suspense (Render GenericLoading)
                 (Render (Lazy Pages "/src/pages/blog/[slug].tsx")))
              None])])].
Proof. vm_compute. reflexivity. Qed.

(** C2 at the scenario of the specification: [a/data.ts] is present, and
    the leaf of [a/page.tsx] is the page component inside the suspension
    boundary, with no [DataLoaderComponent]. *)
Theorem C2_nested_leaf_without_bridge :
  isDataFunctionComponentSet {["/src/pages/a/data.ts"]}
    "/src/pages/a/page.tsx" = true
  /\ routes ∅ ∅ ∅ {["/src/pages/a/data.ts"]} ["/src/pages/a/page.tsx"]
     = [mkRoute (Some "/") false (RenderLayout GenericLayout Outlet) (Some [
          mkRoute (Some "a") false
            (Suspense (Render GenericLoading)
               (RenderLayout GenericLayout Outlet))
            (Some [
               mkRoute (Some "page") false
                 (Suspense (Render GenericLoading)
                    (Render (Lazy Pages "/src/pages/a/page.tsx")))
                 None])])].
Proof. split; vm_compute; reflexivity. Qed.

(** The branch for pages directly under the base path does wrap the page
    in the bridge. *)
Example root_leaf_with_bridge :
  routes ∅ ∅ ∅ {["/src/pages/data.ts"]} ["/src/pages/page.tsx"]
  = [mkRoute (Some "/") false (RenderLayout GenericLayout Outlet) (Some [
       mkRoute (Some "/page") false
         (Suspense (Render GenericLoading)
            (DataLoaderComponent (Lazy Pages "/src/pages/page.tsx")
               GenericLoading (Some "/src/pages/data.ts")))
         None])].
Proof. vm_compute. reflexivity. Qed.

(** Children are kept in the order of discovery, not sorted. *)
Example discovery_order_not_sorted :
  routes ∅ ∅ ∅ ∅ ["/src/pages/zebra.tsx"; "/src/pages/apple.tsx"]
  = [mkRoute (Some "/") false (RenderLayout GenericLayout Outlet) (Some [
       mkRoute (Some "/zebra") false
         (Suspense (Render GenericLoading)
            (Render (Lazy Pages "/src/pages/zebra.tsx")))
         None;
       mkRoute (Some "/apple") false
         (Suspense (Render GenericLoading)
            (Render (Lazy Pages "/src/pages/apple.tsx")))
         None])].
Proof. vm_compute. reflexivity. Qed.

End RouterFacts.

(** * Further properties of [pathToRoute] and of the collaborator paths *)

Module PathFacts.
Import StringFacts.

(** Equal strings, up to the bracketing of the appends. *)
Ltac string_eq :=
  repeat (rewrite app_String || rewrite app_Empty || rewrite string_app_assoc);
  reflexivity.

(** The first two steps of [pathToRoute] on a [.tsx] file under the base
    path. *)
Lemma pathToRoute_body body :
  pathToRoute (BASE_PAGES_PATH +:+ body +:+ ".tsx")
  = Js.or_else
      (Js.strip_suffix "/"
         (Js.strip_suffix "/index" (Js.replace_brackets body)))
      "/".
Proof.
  unfold pathToRoute. now rewrite replace_first_prefix, strip_suffix_app.
Qed.

(** The last three steps when the last segment is not an index. *)
Lemma route_ends_on_segment x f :
  Js.includes "/" f = false -> f <> "" -> f <> "index" ->
  Js.or_else
    (Js.strip_suffix "/" (Js.strip_suffix "/index" (x +:+ String "/" f)))
    "/"
  = x +:+ String "/" f.
Proof.
  intros Hsep Hne Hindex.
  rewrite (strip_suffix_last_segment "index") by (reflexivity || exact Hsep).
  destruct (String.eqb_spec f "index") as [| _]; [contradiction |].
  rewrite (strip_suffix_last_segment "") by (reflexivity || exact Hsep).
  destruct (String.eqb_spec f "") as [| _]; [contradiction |].
  destruct x; reflexivity.
Qed.

(** One bracket group after a part without brackets. *)
Lemma replace_brackets_step x name rest :
  Js.includes "[" x = false ->
  Js.includes "]" name = false -> name <> "" ->
  Js.replace_brackets (x +:+ String "[" (name +:+ String "]" rest))
  = x +:+ ":" +:+ name +:+ Js.replace_brackets rest.
Proof.
  intros Hx Hname Hne. unfold Js.replace_brackets at 1.
  rewrite brackets_scan_plain_app by exact Hx.
  fold (Js.replace_brackets (String "[" (name +:+ String "]" rest))).
  now rewrite replace_brackets_group.
Qed.

(** Without a closing bracket nothing is a group. *)
Lemma brackets_scan_unclosed pending s :
  Js.includes "]" s = false ->
  Js.brackets_scan pending s
  = match pending with
    | None => s
    | Some run => String "[" (run +:+ s)
    end.
Proof.
  revert pending. induction s as [| c s IH]; intros pending Hs.
  - destruct pending as [run |]; simpl; [| reflexivity].
    now rewrite app_Empty_r.
  - simpl in Hs. apply orb_false_elim in Hs as [Hc Hs].
    destruct pending as [run |]; simpl.
    + rewrite Hc, IH by exact Hs. f_equal. string_eq.
    + destruct (Ascii.eqb_spec c "[") as [-> | _].
      * now rewrite IH.
      * now rewrite IH.
Qed.

(** [pathToRoute] at any depth: under a directory part [dir] (empty, or
    separators and names) without opening bracket, the file [file.tsx],
    when the name [file] is not empty, is not [index] and has no separator
    and no opening bracket, gives the directory part and the file name. *)
Theorem pathToRoute_any_depth (dir file : string) :
  Js.includes "[" dir = false ->
  plain_name file -> file <> "" -> file <> "index" ->
  pathToRoute (BASE_PAGES_PATH +:+ dir +:+ "/" +:+ file +:+ ".tsx")
  = dir +:+ "/" +:+ file.
Proof.
  intros Hdir [Hsep Hfile] Hne Hindex.
  now apply pathToRoute_file.
Qed.

Lemma pathToRoute_any_depth_witness :
  pathToRoute "/src/pages/shop/items/sale/list.tsx" = "/shop/items/sale/list".
Proof.
  apply (pathToRoute_any_depth "/shop/items/sale" "list");
    repeat split; discriminate.
Defined.

(** The index file of a directory, at any depth, gives the path of the
    directory. *)
Theorem pathToRoute_index_any_depth (dir name : string) :
  Js.includes "[" dir = false ->
  plain_name name -> name <> "" ->
  pathToRoute (BASE_PAGES_PATH +:+ dir +:+ "/" +:+ name +:+ "/index.tsx")
  = dir +:+ "/" +:+ name.
Proof.
  intros Hdir [Hsep Hname] Hne.
  rewrite pathToRoute_index by assumption.
  destruct (String.eqb_spec name "") as [| _]; [contradiction |].
  destruct dir; reflexivity.
Qed.

Lemma pathToRoute_index_any_depth_witness :
  pathToRoute "/src/pages/shop/items/index.tsx" = "/shop/items".
Proof.
  apply (pathToRoute_index_any_depth "/shop" "items");
    repeat split; discriminate.
Defined.

(** A file whose name is a parameter, [[id].tsx], gives the segment
    [:id]. *)
Theorem pathToRoute_dynamic_file (dir id : string) :
  Js.includes "[" dir = false ->
  Js.includes "]" id = false -> Js.includes "/" id = false -> id <> "" ->
  pathToRoute (BASE_PAGES_PATH +:+ dir +:+ "/[" +:+ id +:+ "].tsx")
  = dir +:+ "/:" +:+ id.
Proof.
  intros Hdir Hclose Hsep Hne.
  replace (dir +:+ "/[" +:+ id +:+ "].tsx")
    with ((dir +:+ "/") +:+ String "[" (id +:+ String "]" "") +:+ ".tsx")
    by string_eq.
  replace ((dir +:+ "/") +:+ String "[" (id +:+ String "]" "") +:+ ".tsx")
    with (((dir +:+ "/") +:+ String "[" (id +:+ String "]" "")) +:+ ".tsx")
    by string_eq.
  rewrite pathToRoute_body, replace_brackets_step; try assumption.
  2: { rewrite includes_app, Hdir. reflexivity. }
  replace ((dir +:+ "/") +:+ ":" +:+ id +:+ Js.replace_brackets "")
    with (dir +:+ String "/" (":" +:+ id)).
  2: { unfold Js.replace_brackets. simpl. rewrite app_Empty_r. string_eq. }
  rewrite route_ends_on_segment; try discriminate.
  - reflexivity.
  - simpl. exact Hsep.
Qed.

Lemma pathToRoute_dynamic_file_witness :
  pathToRoute "/src/pages/blog/[slug].tsx" = "/blog/:slug".
Proof.
  apply (pathToRoute_dynamic_file "/blog" "slug");
    (reflexivity || discriminate).
Defined.

(** Every bracket group is replaced, not the first one only: two
    parameter directories give two parameter segments. *)
Theorem pathToRoute_two_parameters (a b file : string) :
  Js.includes "]" a = false -> a <> "" ->
  Js.includes "]" b = false -> b <> "" ->
  plain_name file -> file <> "" -> file <> "index" ->
  pathToRoute
    ("/src/pages/[" +:+ a +:+ "]/[" +:+ b +:+ "]/" +:+ file +:+ ".tsx")
  = "/:" +:+ a +:+ "/:" +:+ b +:+ "/" +:+ file.
Proof.
  intros Ha Hane Hb Hbne [Hsep Hfile] Hne Hindex.
  replace ("/src/pages/[" +:+ a +:+ "]/[" +:+ b +:+ "]/" +:+ file +:+ ".tsx")
    with (BASE_PAGES_PATH
          +:+ ("/" +:+ String "["
                 (a +:+ String "]"
                    ("/" +:+ String "["
                       (b +:+ String "]" (String "/" file)))))
          +:+ ".tsx")
    by string_eq.
  rewrite pathToRoute_body.
  rewrite replace_brackets_step by (reflexivity || assumption).
  rewrite replace_brackets_step by (reflexivity || assumption).
  rewrite (replace_brackets_plain (String "/" file))
    by (simpl; exact Hfile).
  replace ("/" +:+ ":" +:+ a +:+ "/" +:+ ":" +:+ b +:+ String "/" file)
    with (("/:" +:+ a +:+ "/:" +:+ b) +:+ String "/" file)
    by string_eq.
  rewrite route_ends_on_segment by assumption.
  string_eq.
Qed.

Lemma pathToRoute_two_parameters_witness :
  pathToRoute "/src/pages/[team]/[member]/profile.tsx"
  = "/:team/:member/profile".
Proof.
  apply (pathToRoute_two_parameters "team" "member" "profile");
    repeat split; discriminate.
Defined.

(** Brackets that enclose no name are kept: an opening bracket that is
    never closed, and the empty pair. *)
Theorem pathToRoute_keeps_other_brackets (dir file : string) :
  Js.includes "/" file = false -> file <> "" -> file <> "index" ->
  (Js.includes "]" dir = false -> Js.includes "]" file = false ->
   pathToRoute (BASE_PAGES_PATH +:+ dir +:+ "/" +:+ file +:+ ".tsx")
   = dir +:+ "/" +:+ file)
  /\ (Js.includes "[" dir = false -> Js.includes "[" file = false ->
      pathToRoute (BASE_PAGES_PATH +:+ dir +:+ "/[]/" +:+ file +:+ ".tsx")
      = dir +:+ "/[]/" +:+ file).
Proof.
  intros Hsep Hne Hindex. split.
  - intros Hdir Hfile.
    replace (dir +:+ "/" +:+ file +:+ ".tsx")
      with ((dir +:+ String "/" file) +:+ ".tsx")
      by string_eq.
    rewrite pathToRoute_body. unfold Js.replace_brackets.
    rewrite brackets_scan_unclosed.
    + now apply route_ends_on_segment.
    + rewrite includes_app, Hdir. simpl. exact Hfile.
  - intros Hdir Hfile.
    replace (dir +:+ "/[]/" +:+ file +:+ ".tsx")
      with (((dir +:+ "/") +:+ "[]" +:+ String "/" file) +:+ ".tsx")
      by string_eq.
    rewrite pathToRoute_body. unfold Js.replace_brackets.
    rewrite brackets_scan_plain_app
      by (rewrite includes_app, Hdir; reflexivity).
    simpl.
    fold (Js.replace_brackets file).
    rewrite (replace_brackets_plain file) by exact Hfile.
    replace ((dir +:+ "/") +:+ "[]" +:+ String "/" file)
      with ((dir +:+ "/[]") +:+ String "/" file)
      by string_eq.
    rewrite route_ends_on_segment by assumption.
    string_eq.
Qed.

Lemma pathToRoute_keeps_other_brackets_witness :
  pathToRoute "/src/pages/docs/[draft.tsx" = "/docs/[draft"
  /\ pathToRoute "/src/pages/docs/[]/draft.tsx" = "/docs/[]/draft".
Proof.
  destruct (pathToRoute_keeps_other_brackets "/docs" "[draft")
    as [Hopen _]; try (reflexivity || discriminate).
  destruct (pathToRoute_keeps_other_brackets "/docs" "draft")
    as [_ Hpair]; try (reflexivity || discriminate).
  split; [apply Hopen | apply Hpair]; reflexivity.
Defined.

End PathFacts.

(** * Properties of the segments of a page *)

Module SegmentFacts.
Import StringFacts.

Lemma split_nonempty c s : Js.split c s <> [].
Proof.
  destruct s as [| d s]; simpl; [discriminate |].
  destruct (Ascii.eqb d c); [discriminate |].
  destruct (Js.split c s); discriminate.
Qed.

Lemma split_plain c s : Js.includes c s = false -> Js.split c s = [s].
Proof.
  induction s as [| d s IH]; [reflexivity |].
  simpl. intros [Hd Hs]%orb_false_elim. now rewrite Hd, IH.
Qed.

(** A separator cuts the segments of both sides apart. *)
Lemma split_app c a b :
  Js.split c (a +:+ String c b) = Js.split c a ++ Js.split c b.
Proof.
  induction a as [| d a IH].
  - rewrite app_Empty. simpl. now rewrite Ascii.eqb_refl.
  - rewrite app_String. simpl. rewrite IH.
    destruct (Ascii.eqb d c); [reflexivity |].
    pose proof (split_nonempty c a) as Hne.
    destruct (Js.split c a); [contradiction | reflexivity].
Qed.

Lemma split_segments_plain c s :
  Forall (fun w => Js.includes c w = false) (Js.split c s).
Proof.
  induction s as [| d s IH]; simpl.
  - repeat constructor.
  - destruct (Ascii.eqb d c) eqn:Hd.
    + constructor; [reflexivity | exact IH].
    + destruct (Js.split c s) as [| w ws]; [repeat constructor; simpl |].
      * now rewrite Hd.
      * inversion IH; subst. constructor; [simpl | assumption].
        now rewrite Hd.
Qed.

Lemma join_cons w ws :
  ws <> [] -> Js.join "/" (w :: ws) = w +:+ "/" +:+ Js.join "/" ws.
Proof. destruct ws; [contradiction | reflexivity]. Qed.

Lemma join_split s : Js.join "/" (Js.split "/" s) = s.
Proof.
  induction s as [| d s IH]; [reflexivity |].
  simpl. destruct (Ascii.eqb_spec d "/") as [-> | _].
  - rewrite join_cons by apply split_nonempty. now rewrite IH.
  - pose proof (split_nonempty "/" s) as Hne.
    destruct (Js.split "/" s) as [| w ws]; [contradiction |].
    rewrite <- IH. destruct ws; reflexivity.
Qed.

Lemma split_join segs :
  segs <> [] ->
  Forall (fun w => Js.includes "/" w = false) segs ->
  Js.split "/" (Js.join "/" segs) = segs.
Proof.
  induction segs as [| w ws IH]; [contradiction |].
  intros _ Hall. inversion Hall as [| ? ? Hw Hws]; subst.
  destruct ws as [| w' ws'].
  - simpl. now apply split_plain.
  - rewrite join_cons by discriminate.
    change ("/" +:+ Js.join "/" (w' :: ws'))
      with (String "/" (Js.join "/" (w' :: ws'))).
    rewrite split_app, IH, split_plain by (assumption || discriminate).
    reflexivity.
Qed.

Lemma splittedRoute_under_base rest :
  splittedRoute (BASE_PAGES_PATH +:+ "/" +:+ rest) = Js.split "/" rest.
Proof.
  unfold splittedRoute.
  change (BASE_PAGES_PATH +:+ "/" +:+ rest)
    with ((BASE_PAGES_PATH +:+ "/") +:+ rest).
  now rewrite replace_first_prefix.
Qed.

Lemma splittedRoute_page_path segments :
  segments <> [] ->
  Forall (fun w => Js.includes "/" w = false) segments ->
  splittedRoute (page_path segments) = segments.
Proof.
  intros Hne Hall. unfold page_path.
  rewrite splittedRoute_under_base. now apply split_join.
Qed.

(** The segments of a page are what its path under the base was joined
    from. *)
Theorem splittedRoute_join (segments : list string) :
  segments <> [] ->
  Forall (fun w => Js.includes "/" w = false) segments ->
  splittedRoute (BASE_PAGES_PATH +:+ "/" +:+ Js.join "/" segments) = segments.
Proof. exact (splittedRoute_page_path segments). Qed.

Lemma splittedRoute_join_witness :
  splittedRoute "/src/pages/blog/[slug]/comments.tsx"
  = ["blog"; "[slug]"; "comments.tsx"].
Proof.
  apply (splittedRoute_join ["blog"; "[slug]"; "comments.tsx"]).
  - discriminate.
  - repeat constructor.
Defined.

Lemma routeWithoutFile_nested dir file :
  Js.includes "/" file = false ->
  routeWithoutFile (BASE_PAGES_PATH +:+ "/" +:+ dir +:+ "/" +:+ file) = dir.
Proof.
  intros Hfile. unfold routeWithoutFile, Js.slice_init.
  rewrite splittedRoute_under_base.
  change ("/" +:+ file) with (String "/" file).
  rewrite split_app, (split_plain _ file), removelast_last by exact Hfile.
  apply join_split.
Qed.

Lemma routeWithoutFile_root file :
  Js.includes "/" file = false ->
  routeWithoutFile (BASE_PAGES_PATH +:+ "/" +:+ file) = "".
Proof.
  intros Hfile. unfold routeWithoutFile, Js.slice_init.
  now rewrite splittedRoute_under_base, split_plain.
Qed.

(** The loading indicator and the data function of a page are looked up
    beside the page: in its own directory, at any depth, and in the base
    directory for a page directly under it. *)
Theorem collaborators_beside_page (dir file : string) :
  Js.includes "/" file = false ->
  (dir <> "" ->
   loadingFilePath (BASE_PAGES_PATH +:+ "/" +:+ dir +:+ "/" +:+ file)
   = BASE_PAGES_PATH +:+ "/" +:+ dir +:+ "/loading.tsx"
   /\ dataFunctionFilePath (BASE_PAGES_PATH +:+ "/" +:+ dir +:+ "/" +:+ file)
      = BASE_PAGES_PATH +:+ "/" +:+ dir +:+ "/data.ts")
  /\ loadingFilePath (BASE_PAGES_PATH +:+ "/" +:+ file)
     = BASE_PAGES_PATH +:+ "/loading.tsx"
  /\ dataFunctionFilePath (BASE_PAGES_PATH +:+ "/" +:+ file)
     = BASE_PAGES_PATH +:+ "/data.ts".
Proof.
  intros Hfile.
  unfold loadingFilePath, dataFunctionFilePath, collaborator_path.
  rewrite (routeWithoutFile_root file) by exact Hfile.
  split; [| split; reflexivity].
  intros Hne. rewrite routeWithoutFile_nested by exact Hfile.
  destruct dir as [| c dir]; [contradiction |].
  split; now rewrite !string_app_assoc.
Qed.

Lemma collaborators_beside_page_witness :
  loadingFilePath "/src/pages/shop/items/list.tsx"
  = "/src/pages/shop/items/loading.tsx"
  /\ dataFunctionFilePath "/src/pages/shop/items/list.tsx"
     = "/src/pages/shop/items/data.ts".
Proof.
  destruct (collaborators_beside_page "shop/items" "list.tsx")
    as [Hnested _]; [reflexivity |].
  apply Hnested. discriminate.
Defined.

End SegmentFacts.

(** * Further properties of the Data-Loading Bridge *)

Module BridgeMoreFacts.
Import Bridge.

Lemma final_state_rerun m : final_state m = rerun initial m.
Proof. reflexivity. Qed.

(** Whatever the promises do, every render of a mount before the last
    one is the loading indicator, and the last state is out of loading
    exactly when the effect has run to its end: a promise that never
    settles leaves the bridge on the loading indicator. *)
Theorem loading_until_settled
    (m : option (Promise DataModule)) (C L : Component) :
  Forall (eq (Render L)) (removelast (renders C L m))
  /\ loading (final_state m) = negb (settled m).
Proof.
  destruct m as [[| [[| V | E]] | E] |]; split; try reflexivity;
    repeat constructor.
Qed.

(** A rejected import of the data module and a rejected data function
    give the same state updates. *)
Theorem import_rejection_like_data_rejection (E : JsValue) :
  loadData (Some (Rejected E)) = loadData (rejecting E).
Proof. reflexivity. Qed.

(** A rejection whose reason is falsy ([null], [undefined], ...) is
    stored but not shown: the bridge ends on [null], with no notice. *)
Theorem falsy_rejection_renders_nothing (E : JsValue) (C L : Component) :
  truthy E = false ->
  settled (rejecting E) = true
  /\ error (final_state (rejecting E)) = E
  /\ final_render C L (rejecting E) = Null.
Proof.
  intros HE. repeat split.
  unfold final_render, final_state, render. simpl. now rewrite HE.
Qed.

Lemma falsy_rejection_renders_nothing_witness :
  final_render (Lazy Pages "/src/pages/index.tsx") GenericLoading
    (rejecting JUndefined) = Null.
Proof.
  apply (falsy_rejection_renders_nothing JUndefined
           (Lazy Pages "/src/pages/index.tsx") GenericLoading).
  reflexivity.
Defined.

(** The notice shows the [message] property of the reason and nothing
    else: a rejection by a non-empty string shows a notice without the
    string. *)
Theorem string_rejection_shows_no_text (s : string) (C L : Component) :
  s <> "" ->
  final_render C L (rejecting (JString s)) = ErrorNotice JUndefined.
Proof.
  intros Hs. unfold final_render, final_state, render. simpl.
  destruct (String.eqb_spec s "") as [| _]; [contradiction | reflexivity].
Qed.

Lemma string_rejection_shows_no_text_witness :
  final_render (Lazy Pages "/src/pages/index.tsx") GenericLoading
    (rejecting (JString "timeout")) = ErrorNotice JUndefined.
Proof.
  apply (string_rejection_shows_no_text "timeout"). discriminate.
Defined.

(** The effect never resets [error]: after a failure, a later run of the
    effect that succeeds still ends on the notice of the old error, for
    every value it loads. *)
Theorem error_survives_successful_rerun
    (s : State) (V : JsValue) (C L : Component) :
  truthy (error s) = true ->
  data (rerun s (resolving V)) = V
  /\ render C L (rerun s (resolving V)) = ErrorNotice (message_of (error s)).
Proof.
  intros He. split; [reflexivity |].
  unfold render. simpl. now rewrite He.
Qed.

Lemma error_survives_successful_rerun_witness :
  render (Lazy Pages "/src/pages/index.tsx") GenericLoading
    (rerun (final_state (rejecting (JError "offline")))
       (resolving (JObject [("id", JNumber 1)])))
  = ErrorNotice (JString "offline").
Proof.
  apply (error_survives_successful_rerun
           (final_state (rejecting (JError "offline")))
           (JObject [("id", JNumber 1)])).
  reflexivity.
Defined.

(** The effect never resets [data] either: when the prop becomes [null]
    after a successful load, the bridge goes on showing the target with
    the data loaded before. *)
Theorem data_survives_rerun_without_function
    (s : State) (C L : Component) :
  truthy (error s) = false -> truthy (data s) = true ->
  render C L (rerun s None) = RenderWithData C (data s).
Proof.
  intros He Hd. unfold render. simpl. now rewrite He, Hd.
Qed.

Lemma data_survives_rerun_without_function_witness :
  render (Lazy Pages "/src/pages/index.tsx") GenericLoading
    (rerun (final_state (resolving (JString "cached"))) None)
  = RenderWithData (Lazy Pages "/src/pages/index.tsx") (JString "cached").
Proof.
  apply (data_survives_rerun_without_function
           (final_state (resolving (JString "cached"))));
    reflexivity.
Defined.

End BridgeMoreFacts.

(** * Where the builder puts a page *)

Module PlacementFacts.
Import TreeFacts.

Section Placement.

Variables _layouts _loading _error _data : gset string.

Local Abbreviation walk_with := (walk_segment _layouts _loading _error).
Local Abbreviation add_with := (add_page _layouts _loading _error _data).
Local Abbreviation chain_with := (chain _layouts _loading _error).
Local Abbreviation node_with := (node_of _layouts _loading _error _data).

Lemma push_at_root n r cs :
  children r = Some cs ->
  push_at [] n r = mkRoute (path r) (index r) (element r) (Some (cs ++ [n])).
Proof. destruct r as [? ? ? [l |]]; simpl; [now intros [= ->] | discriminate]. Qed.

(** A push into the array of the node that was pushed last. *)
Lemma push_at_snoc p r cs n l x :
  children_at p r = Some cs ->
  children n = Some l ->
  push_at (p ++ [length cs]) x (push_at p n r)
  = push_at p (mkRoute (path n) (index n) (element n) (Some (l ++ [x]))) r.
Proof.
  intros Hcs Hn. revert r Hcs.
  induction p as [| i p IH]; intros [pa ix e [l0 |]]; unfold children_at;
    simpl; try discriminate.
  - intros [= ->]. f_equal. f_equal.
    rewrite <- (Nat.add_0_r (length cs)), alter_app_r. simpl.
    now rewrite Hn.
  - destruct (l0 !! i) as [c |] eqn:Hi; [| discriminate]. intros Hc.
    f_equal. f_equal. rewrite list_alter_alter_eq.
    apply list_alter_ext; [| reflexivity].
    intros c' Hc'. rewrite Hi in Hc'. injection Hc' as <-.
    simpl. apply IH. exact Hc.
Qed.

Lemma children_at_pushed p r cs n :
  children_at p r = Some cs ->
  children_at (p ++ [length cs]) (push_at p n r) = children n.
Proof.
  intros Hcs. unfold children_at at 1.
  rewrite (node_at_snoc _ _ _ _ (children_at_push_at _ n _ _ Hcs)).
  rewrite lookup_app_r, Nat.sub_diag by lia. reflexivity.
Qed.

(** Once [currentChildren] is not an array of the tree, the rest of the
    walk leaves the tree alone. *)
Lemma walk_off_tree pageFile segments w :
  (forall p, currentChildren w <> InTree p) ->
  tree (fold_left (walk_with pageFile) segments w) = tree w.
Proof.
  revert w. induction segments as [| s segments IH]; intros w Hoff;
    [reflexivity |].
  simpl. rewrite IH.
  - unfold walk_segment.
    destruct (Js.endsWith ".tsx" s), (currentChildren w) as [p | |];
      try reflexivity; now destruct (Hoff p).
  - intros p. unfold walk_segment.
    destruct (Js.endsWith ".tsx" s), (currentChildren w) as [q | |];
      simpl; try discriminate; now destruct (Hoff q).
Qed.

(** The walk over directory names that are not found and then a file
    name pushes one chain into the current array. *)
Lemma walk_chain pageFile file :
  Js.endsWith ".tsx" file = true ->
  forall dirs carried r p cs,
    Forall (fun d => Js.endsWith ".tsx" d = false) dirs ->
    children_at p r = Some cs ->
    (forall d, head dirs = Some d ->
       Forall (fun child => path child <> Some (carried +:+ "/" +:+ d)) cs) ->
    tree (fold_left (walk_with pageFile) (dirs ++ [file])
            (mkWalk r (InTree p) carried))
    = push_at p (chain_with pageFile carried dirs file) r.
Proof.
  intros Hfile. induction dirs as [| d dirs IH];
    intros carried r p cs Hdirs Hcs Hmiss.
  - simpl. unfold walk_segment, nested_leaf. rewrite Hfile. simpl.
    destruct (String.eqb file "index.tsx"); reflexivity.
  - inversion Hdirs as [| ? ? Hd Hrest]; subst.
    simpl. unfold walk_segment at 2. simpl. rewrite Hd, Hcs.
    rewrite (proj2 (list_find_None _ cs)) by (apply Hmiss; reflexivity).
    rewrite (IH _ _ _ [] Hrest).
    + now rewrite (push_at_snoc _ _ _ _ [] _ Hcs).
    + now rewrite (children_at_pushed _ _ _ _ Hcs).
    + intros; constructor.
Qed.

(** A page under directories whose first directory is not found among
    the children of the root adds one child to the root, after the
    children it has: the nodes of its directories one inside the other,
    each with one child, around the leaf of the page. *)
Theorem add_page_nested
    (d : string) (dirs : list string) (file : string)
    (root : RouteObject) (cs : list RouteObject) :
  Forall (fun w => Js.includes "/" w = false /\ Js.endsWith ".tsx" w = false)
    (d :: dirs) ->
  Js.includes "/" file = false ->
  Js.endsWith ".tsx" file = true ->
  children root = Some cs ->
  Forall (fun child => path child <> Some ("/" +:+ d)) cs ->
  add_with root (page_path (d :: dirs ++ [file]))
  = mkRoute (path root) (index root) (element root)
      (Some (cs ++ [chain_with (page_path (d :: dirs ++ [file])) ""
                      (d :: dirs) file])).
Proof.
  intros Hdirs Hsep Hfile Hcs Hmiss.
  assert (Hsplit : splittedRoute (page_path (d :: dirs ++ [file]))
                   = (d :: dirs) ++ [file]).
  { apply SegmentFacts.splittedRoute_page_path; [discriminate |].
    change (d :: dirs ++ [file]) with ((d :: dirs) ++ [file]).
    apply Forall_app. split.
    - eapply Forall_impl; [exact Hdirs | now intros ? []].
    - now constructor. }
  unfold add_page. rewrite Hsplit.
  assert (Hwalk :
    tree (fold_left (walk_with (page_path (d :: dirs ++ [file])))
            ((d :: dirs) ++ [file]) (mkWalk root (InTree []) ""))
    = push_at [] (chain_with (page_path (d :: dirs ++ [file])) ""
                    (d :: dirs) file) root).
  { apply (walk_chain _ _ Hfile _ _ _ _ cs).
    - eapply Forall_impl; [exact Hdirs | now intros ? []].
    - exact Hcs.
    - intros ? [= <-]. exact Hmiss. }
  rewrite (push_at_root _ _ _ Hcs) in Hwalk.
  destruct dirs; exact Hwalk.
Qed.

(** A page under a directory whose carried path is the path of a page
    leaf, and of no node with children, is dropped: the walk leaves the
    tree on the leaf, and the tree is as it was. *)
Theorem add_page_shadowed
    (d : string) (rest : list string)
    (root : RouteObject) (cs : list RouteObject) :
  Js.includes "/" d = false -> Js.endsWith ".tsx" d = false ->
  rest <> [] -> Forall (fun w => Js.includes "/" w = false) rest ->
  children root = Some cs ->
  Exists (fun child => path child = Some ("/" +:+ d)) cs ->
  Forall (fun child => path child = Some ("/" +:+ d) -> children child = None)
    cs ->
  add_with root (page_path (d :: rest)) = root.
Proof.
  intros Hsep Hd Hrest Hplain Hcs Hfound Hleaf.
  assert (Hsplit : splittedRoute (page_path (d :: rest)) = d :: rest).
  { apply SegmentFacts.splittedRoute_page_path; [discriminate |].
    now constructor. }
  unfold add_page. rewrite Hsplit.
  assert (Hwalk :
    tree (fold_left (walk_with (page_path (d :: rest))) (d :: rest)
            (mkWalk root (InTree []) "")) = root).
  { assert (Hfind : exists i found,
      list_find (fun child => path child = Some ("" +:+ "/" +:+ d)) cs
      = Some (i, found) /\ children found = None).
    { destruct (list_find (fun child => path child = Some ("" +:+ "/" +:+ d))
                  cs) as [[i found] |] eqn:Hfind.
      - exists i, found. split; [reflexivity |].
        apply list_find_Some in Hfind as (Hi & Hpath & _).
        apply list_elem_of_lookup_2 in Hi.
        rewrite Forall_forall in Hleaf. exact (Hleaf _ Hi Hpath).
      - apply list_find_None in Hfind.
        apply Exists_exists in Hfound as (child & Hin & Hpath).
        rewrite Forall_forall in Hfind. now destruct (Hfind _ Hin). }
    destruct Hfind as (i & found & Hfind & Hnone).
    simpl. rewrite walk_off_tree.
    - unfold walk_segment. simpl. rewrite Hd.
      unfold children_at. simpl. now rewrite Hcs, Hfind.
    - intros p. unfold walk_segment. simpl. rewrite Hd.
      unfold children_at. simpl. rewrite Hcs, Hfind. simpl.
      now rewrite Hnone. }
  destruct rest; [contradiction | exact Hwalk].
Qed.

(** What one regular page adds to the root. *)
Lemma add_page_regular pageFile root cs :
  regular_page pageFile = true ->
  children root = Some cs ->
  (forall d, first_directory pageFile = Some d ->
     Forall (fun child => path child <> Some ("/" +:+ d)) cs) ->
  add_with root pageFile
  = mkRoute (path root) (index root) (element root)
      (Some (cs ++ [node_with pageFile])).
Proof.
  unfold regular_page, first_directory, add_page, node_of.
  intros Hreg Hcs Hmiss.
  destruct (splittedRoute pageFile) as [| a [| b rest]] eqn:Hsplit.
  - now destruct (SegmentFacts.split_nonempty "/"
        (Js.replace_first (BASE_PAGES_PATH +:+ "/") "" pageFile)).
  - unfold root_leaf. simpl.
    destruct (String.eqb a "index.tsx"); apply push_at_root, Hcs.
  - apply andb_prop in Hreg as [Hdirs Hfile].
    rewrite (app_removelast_last "" (l := a :: b :: rest)) at 1
      by discriminate.
    rewrite (walk_chain _ _ Hfile _ _ _ _ cs).
    + apply push_at_root, Hcs.
    + apply Forall_forall. intros x Hx.
      rewrite forallb_forall in Hdirs.
      apply list_elem_of_In, Hdirs in Hx.
      apply andb_prop in Hx as [_ Hx]. now apply negb_true_iff in Hx.
    + exact Hcs.
    + intros d [= <-]. now apply Hmiss.
Qed.

(** The node of a regular page is not what a later page looks for, unless
    the page shadows the later one. *)
Lemma node_of_not_looked_up earlier later d :
  regular_page earlier = true ->
  first_directory later = Some d ->
  shadows earlier later = false ->
  path (node_with earlier) <> Some ("/" +:+ d).
Proof.
  unfold regular_page, shadows, node_of. intros Hreg Hd Hshadow.
  rewrite Hd in Hshadow.
  pose proof (SegmentFacts.split_segments_plain "/"
    (Js.replace_first (BASE_PAGES_PATH +:+ "/") "" earlier)) as Hplain.
  fold (splittedRoute earlier) in Hplain.
  destruct (splittedRoute earlier) as [| a [| b rest]].
  - discriminate.
  - unfold root_leaf.
    destruct (String.eqb a "index.tsx"); simpl in *; [discriminate |].
    intros [= Heq]. rewrite Heq, String.eqb_refl in Hshadow. discriminate.
  - apply andb_prop in Hreg as [Hdirs _]. simpl in Hdirs.
    apply andb_prop in Hdirs as [Ha _]. apply andb_prop in Ha as [Hne Htsx].
    apply negb_true_iff in Hne, Htsx. apply String.eqb_neq in Hne.
    inversion Hplain; subst.
    apply (RouterFacts.directory_node_never_found _layouts _loading _error
             earlier ("" +:+ "/" +:+ a) a "" d); assumption.
Qed.

Lemma add_pages_regular pages :
  forall root cs,
    children root = Some cs ->
    forallb (regular_page) pages = true ->
    no_shadowing pages = true ->
    (forall later d, In later pages -> first_directory later = Some d ->
       Forall (fun child => path child <> Some ("/" +:+ d)) cs) ->
    fold_left add_with pages root
    = mkRoute (path root) (index root) (element root)
        (Some (cs ++ map node_with pages)).
Proof.
  induction pages as [| pageFile pages IH]; intros root cs Hcs Hreg Hno Hmiss.
  - simpl. rewrite app_nil_r. destruct root; simpl in *. now subst.
  - simpl in Hreg, Hno.
    apply andb_prop in Hreg as [Hpage Hreg].
    apply andb_prop in Hno as [Hfirst Hno].
    simpl. rewrite (add_page_regular _ _ cs Hpage Hcs)
      by (intros d Hd; apply (Hmiss pageFile d); [now left | exact Hd]).
    rewrite (IH _ (cs ++ [node_with pageFile])); try assumption.
    + simpl. now rewrite <- app_assoc.
    + reflexivity.
    + intros later d Hin Hd. apply Forall_app. split.
      * apply (Hmiss later d); [now right | exact Hd].
      * constructor; [| constructor].
        apply (node_of_not_looked_up _ later); try assumption.
        rewrite forallb_forall in Hfirst.
        now apply negb_true_iff, Hfirst.
Qed.


End Placement.

Lemma add_page_nested_witness :
  add_page ∅ ∅ ∅ ∅ (root_route ∅ ∅) "/src/pages/blog/posts/view.tsx"
  = mkRoute (Some "/") false (RenderLayout GenericLayout Outlet) (Some [
      mkRoute (Some "blog") false
        (Suspense (Render GenericLoading) (RenderLayout GenericLayout Outlet))
        (Some [
           mkRoute (Some "posts") false
             (Suspense (Render GenericLoading)
                (RenderLayout GenericLayout Outlet))
             (Some [
                mkRoute (Some "view") false
                  (Suspense (Render GenericLoading)
                     (Render (Lazy Pages "/src/pages/blog/posts/view.tsx")))
                  None])])]).
Proof.
  etransitivity.
  - apply (add_page_nested ∅ ∅ ∅ ∅ "blog" ["posts"] "view.tsx"
             (root_route ∅ ∅) []).
    + repeat constructor.
    + reflexivity.
    + reflexivity.
    + reflexivity.
    + constructor.
  - vm_compute. reflexivity.
Defined.

Lemma add_page_shadowed_witness :
  add_page ∅ ∅ ∅ ∅
    (add_page ∅ ∅ ∅ ∅ (root_route ∅ ∅) "/src/pages/blog.tsx")
    "/src/pages/blog/view.tsx"
  = add_page ∅ ∅ ∅ ∅ (root_route ∅ ∅) "/src/pages/blog.tsx".
Proof.
  apply (add_page_shadowed ∅ ∅ ∅ ∅ "blog" ["view.tsx"]
           (add_page ∅ ∅ ∅ ∅ (root_route ∅ ∅) "/src/pages/blog.tsx")
           [mkRoute (Some "/blog") false
              (Suspense (Render GenericLoading)
                 (Render (Lazy Pages "/src/pages/blog.tsx")))
              None]).
  - reflexivity.
  - reflexivity.
  - discriminate.
  - repeat constructor.
  - reflexivity.
  - constructor. reflexivity.
  - repeat constructor.
Defined.


End PlacementFacts.

(** * What every built tree is made of *)

Module InvariantFacts.
Import TreeFacts.

Lemma all_nodes_unfold P r :
  all_nodes P r
  = P r && match children r with
           | Some cs => forallb (all_nodes P) cs
           | None => true
           end.
Proof. destruct r as [? ? ? [cs |]]; reflexivity. Qed.

Lemma forallb_alter {A} (f : A -> bool) (g : A -> A) i l :
  forallb f l = true ->
  (forall x, f x = true -> f (g x) = true) ->
  forallb f (alter g i l) = true.
Proof.
  intros Hl Hg. revert i. induction l as [| x l IH]; intros i; [reflexivity |].
  simpl in Hl. apply andb_prop in Hl as [Hx Hl].
  destruct i; simpl; apply andb_true_intro; split; auto.
  apply IH, Hl.
Qed.

(** A check that does not look into the children array is kept by a
    push of a node that passes it. *)
Lemma all_nodes_push_at P p n r :
  (forall pa ix e cs cs',
     P (mkRoute pa ix e (Some cs)) = P (mkRoute pa ix e (Some cs'))) ->
  all_nodes P r = true -> all_nodes P n = true ->
  all_nodes P (push_at p n r) = true.
Proof.
  intros Hblind. revert r.
  induction p as [| i p IH]; intros [pa ix e [cs |]] Hr Hn; simpl in *;
    try exact Hr.
  - apply andb_prop in Hr as [Hroot Hcs].
    rewrite (Hblind _ _ _ _ cs), Hroot, forallb_app, Hcs. simpl.
    now rewrite Hn.
  - apply andb_prop in Hr as [Hroot Hcs].
    rewrite (Hblind _ _ _ _ cs), Hroot. simpl.
    apply forallb_alter; [exact Hcs |]. intros x Hx. now apply IH.
Qed.

Lemma node_ok_blind pages pa ix e cs cs' :
  node_ok pages (mkRoute pa ix e (Some cs))
  = node_ok pages (mkRoute pa ix e (Some cs')).
Proof. reflexivity. Qed.

Lemma pop_split c s : exists w, Js.pop (Js.split c s) = Some w.
Proof.
  unfold Js.pop. destruct (last (Js.split c s)) as [w |] eqn:Hlast; [eauto |].
  apply last_None in Hlast. now destruct (SegmentFacts.split_nonempty c s).
Qed.

Section Invariant.

Variables _layouts _loading _error _data : gset string.
Variable pages : list string.

Local Abbreviation walk_with := (walk_segment _layouts _loading _error).
Local Abbreviation add_with := (add_page _layouts _loading _error _data).
Local Abbreviation ok := (all_nodes (node_ok pages)).

Lemma page_known pageFile :
  In pageFile pages -> bool_decide (pageFile ∈ pages) = true.
Proof. intros Hin. now apply bool_decide_eq_true_2, list_elem_of_In. Qed.

Lemma push_ok cur n r : ok r = true -> ok n = true -> ok (push cur n r) = true.
Proof.
  intros Hr Hn. destruct cur; simpl; try exact Hr.
  apply all_nodes_push_at; auto using node_ok_blind.
Qed.

Lemma directory_node_ok pageFile carried routeOrFile :
  ok (directory_node _layouts _loading _error pageFile carried routeOrFile)
  = true.
Proof.
  unfold directory_node, node_ok. simpl.
  destruct (has _error _); reflexivity.
Qed.

Lemma walk_segment_ok pageFile w routeOrFile :
  In pageFile pages -> ok (tree w) = true ->
  ok (tree (walk_with pageFile w routeOrFile)) = true.
Proof.
  intros Hin Hw. unfold walk_segment.
  destruct (Js.endsWith ".tsx" routeOrFile); simpl.
  - apply push_ok; [exact Hw |].
    destruct (String.eqb routeOrFile "index.tsx"); unfold node_ok; simpl.
    + now rewrite page_known.
    + destruct (pop_split "/" (pathToRoute pageFile)) as [seg ->].
      now rewrite page_known.
  - destruct (currentChildren w) as [p | |]; simpl; try exact Hw.
    destruct (children_at p (tree w)) as [cs |]; simpl; try exact Hw.
    destruct (list_find _ cs) as [[i found] |]; simpl; [exact Hw |].
    apply all_nodes_push_at; auto using node_ok_blind, directory_node_ok.
Qed.

Lemma walk_ok pageFile segments w :
  In pageFile pages -> ok (tree w) = true ->
  ok (tree (fold_left (walk_with pageFile) segments w)) = true.
Proof.
  intros Hin. revert w.
  induction segments as [| s segments IH]; intros w Hw; [exact Hw |].
  simpl. apply IH. now apply walk_segment_ok.
Qed.

Lemma add_page_ok root pageFile :
  In pageFile pages -> ok root = true -> ok (add_with root pageFile) = true.
Proof.
  intros Hin Hroot. unfold add_page.
  destruct (splittedRoute pageFile) as [| file [| dir rest]].
  - exact Hroot.
  - destruct (String.eqb file "index.tsx"); apply push_ok; try exact Hroot;
      unfold node_ok, root_leaf_element; simpl;
      destruct (isDataFunctionComponentSet _ _); now rewrite page_known.
  - now apply (walk_ok pageFile (file :: dir :: rest)
                 (mkWalk root (InTree []) "")).
Qed.

Lemma add_pages_ok some root :
  (forall pageFile, In pageFile some -> In pageFile pages) ->
  ok root = true -> ok (fold_left add_with some root) = true.
Proof.
  revert root. induction some as [| pageFile some IH]; intros root Hsub Hroot;
    [exact Hroot |].
  simpl. apply IH.
  - intros; apply Hsub; now right.
  - apply add_page_ok; [apply Hsub; now left | exact Hroot].
Qed.

(** Whatever the entries, every node of the built tree, the root
    included, is of one of two kinds.  A node with a children array has a
    path, is not an index route, and its element passes an outlet on to
    the children.  A node without children array is an index route or has
    a path, not both, and its element shows, inside a suspension boundary,
    the component of one of the pages.  So no index route has children,
    and no route shows a page that was not discovered. *)
Theorem every_node_is_directory_or_page :
  Forall (fun r => all_nodes (node_ok pages) r = true)
    (routes _layouts _loading _error _data pages).
Proof.
  constructor; [| constructor].
  apply add_pages_ok; [auto |].
  unfold root_route, node_ok. simpl. destruct (hasRootError _); reflexivity.
Qed.

(** A node, once in the tree, stays: the entries added later leave it at
    its position with its path, its index flag and its element, and a
    page leaf never gets children. *)
Theorem nodes_are_kept
    (later : list string) (r r' : RouteObject)
    (p : list nat) (n : RouteObject) :
  routes _layouts _loading _error _data pages = [r] ->
  routes _layouts _loading _error _data (pages ++ later) = [r'] ->
  node_at p r = Some n ->
  exists n',
    node_at p r' = Some n'
    /\ path n' = path n /\ index n' = index n /\ element n' = element n
    /\ (children n = None <-> children n' = None).
Proof.
  unfold routes. rewrite fold_left_app. intros [= <-] [= <-] Hn.
  destruct (grows_node_at p _ _ n
              (RouterFacts.add_pages_grow _layouts _loading _error _data
                 later _) Hn) as (n' & Hn' & Hg).
  exists n'. split; [exact Hn' |].
  destruct Hg; simpl; repeat split; congruence.
Qed.

End Invariant.

Lemma nodes_are_kept_witness :
  exists n',
    node_at [0]
      (mkRoute (Some "/") false (RenderLayout GenericLayout Outlet) (Some [
         mkRoute (Some "/blog") false
           (Suspense (Render GenericLoading)
              (Render (Lazy Pages "/src/pages/blog.tsx")))
           None;
         mkRoute (Some "about") false
           (Suspense (Render GenericLoading)
              (RenderLayout GenericLayout Outlet))
           (Some [
              mkRoute (Some "team") false
                (Suspense (Render GenericLoading)
                   (Render (Lazy Pages "/src/pages/about/team.tsx")))
                None])]))
    = Some n'
    /\ path n' = Some "/blog" /\ index n' = false
    /\ element n'
       = Suspense (Render GenericLoading)
           (Render (Lazy Pages "/src/pages/blog.tsx"))
    /\ (@None (list RouteObject) = None <-> children n' = None).
Proof.
  apply (nodes_are_kept ∅ ∅ ∅ ∅ ["/src/pages/blog.tsx"]
           ["/src/pages/about/team.tsx"]
           (mkRoute (Some "/") false (RenderLayout GenericLayout Outlet) (Some [
              mkRoute (Some "/blog") false
                (Suspense (Render GenericLoading)
                   (Render (Lazy Pages "/src/pages/blog.tsx")))
                None]))
           _ [0]
           (mkRoute (Some "/blog") false
              (Suspense (Render GenericLoading)
                 (Render (Lazy Pages "/src/pages/blog.tsx")))
              None)).
  - vm_compute. reflexivity.
  - vm_compute. reflexivity.
  - reflexivity.
Defined.

End InvariantFacts.

(** * The collaborators and the shape of the tree *)

Module ShapeFacts.

Lemma shape_path r : path (shape r) = path r.
Proof. now destruct r as [? ? ? [cs |]]. Qed.

Lemma shape_children r : children (shape r) = option_map (map shape) (children r).
Proof. now destruct r as [? ? ? [cs |]]. Qed.

Lemma map_alter {A B} (f : A -> B) (g : A -> A) (h : B -> B) i l :
  (forall x, f (g x) = h (f x)) ->
  map f (alter g i l) = alter h i (map f l).
Proof.
  intros Hfg. revert i. induction l as [| x l IH]; intros [| i]; simpl;
    try reflexivity.
  - now rewrite Hfg.
  - f_equal. apply IH.
Qed.

Lemma lookup_map {A B} (f : A -> B) l i :
  map f l !! i = option_map f (l !! i).
Proof.
  revert i. induction l as [| x l IH]; intros [| i]; simpl; try reflexivity.
  apply IH.
Qed.

Lemma shape_push_at p n r :
  shape (push_at p n r) = push_at p (shape n) (shape r).
Proof.
  revert r. induction p as [| i p IH]; intros [pa ix e [cs |]]; simpl;
    try reflexivity.
  - now rewrite map_app.
  - f_equal. f_equal. apply map_alter. exact IH.
Qed.

Lemma shape_push cur n r : shape (push cur n r) = push cur (shape n) (shape r).
Proof. destruct cur; simpl; auto using shape_push_at. Qed.

Lemma node_at_shape p r : node_at p (shape r) = option_map shape (node_at p r).
Proof.
  revert r. induction p as [| i p IH]; intros r; [reflexivity |].
  simpl. rewrite shape_children.
  destruct (children r) as [cs |]; simpl; [| reflexivity].
  rewrite lookup_map. destruct (cs !! i); simpl; [apply IH | reflexivity].
Qed.

Lemma children_at_shape p r :
  children_at p (shape r) = option_map (map shape) (children_at p r).
Proof.
  unfold children_at. rewrite node_at_shape.
  destruct (node_at p r); simpl; [apply shape_children | reflexivity].
Qed.

(** The lookup of a path sees the same in a tree and in its shape. *)
Lemma list_find_shape key cs :
  list_find (fun child => path child = Some key) (map shape cs)
  = option_map (fun found => (fst found, shape (snd found)))
      (list_find (fun child => path child = Some key) cs).
Proof.
  induction cs as [| c cs IH]; [reflexivity |].
  simpl. rewrite IH.
  destruct (decide (path (shape c) = Some key)) as [Hs | Hs],
           (decide (path c = Some key)) as [Hc | Hc];
    rewrite shape_path in Hs; try contradiction; [reflexivity |].
  now destruct (list_find _ cs) as [[i found] |].
Qed.

Section TwoSettings.

Variables layouts1 loading1 error1 data1 : gset string.
Variables layouts2 loading2 error2 data2 : gset string.

Lemma walk_segment_alike pageFile w1 w2 routeOrFile :
  alike w1 w2 ->
  alike (walk_segment layouts1 loading1 error1 pageFile w1 routeOrFile)
        (walk_segment layouts2 loading2 error2 pageFile w2 routeOrFile).
Proof.
  intros (Htree & Hcur & Hcarried). unfold walk_segment.
  rewrite <- Hcur, <- Hcarried.
  destruct (Js.endsWith ".tsx" routeOrFile).
  - repeat split; simpl. rewrite !shape_push, Htree.
    now destruct (String.eqb routeOrFile "index.tsx").
  - destruct (currentChildren w1) as [p | |]; try (now repeat split).
    pose proof (children_at_shape p (tree w1)) as H1.
    pose proof (children_at_shape p (tree w2)) as H2.
    rewrite Htree, H2 in H1. clear H2.
    destruct (children_at p (tree w1)) as [cs1 |],
             (children_at p (tree w2)) as [cs2 |];
      try discriminate; try (now repeat split).
    injection H1 as Hcs.
    pose proof (list_find_shape (carriedPath w1 +:+ "/" +:+ routeOrFile) cs1)
      as F1.
    pose proof (list_find_shape (carriedPath w1 +:+ "/" +:+ routeOrFile) cs2)
      as F2.
    rewrite Hcs, F1 in F2. clear F1.
    destruct (list_find _ cs1) as [[i1 n1] |],
             (list_find _ cs2) as [[i2 n2] |]; try discriminate.
    + injection F2 as <- Hn. repeat split; try assumption. simpl.
      apply (f_equal children) in Hn. rewrite !shape_children in Hn.
      now destruct (children n1), (children n2).
    + repeat split; simpl.
      * rewrite !shape_push_at. now rewrite Htree.
      * apply (f_equal (@length _)) in Hcs.
        rewrite !length_map in Hcs. now rewrite Hcs.
Qed.

Lemma walk_alike pageFile segments w1 w2 :
  alike w1 w2 ->
  alike (fold_left (walk_segment layouts1 loading1 error1 pageFile) segments w1)
        (fold_left (walk_segment layouts2 loading2 error2 pageFile) segments w2).
Proof.
  revert w1 w2. induction segments as [| s segments IH]; intros w1 w2 Hw;
    [exact Hw |].
  simpl. apply IH. now apply walk_segment_alike.
Qed.

Lemma add_page_shape root1 root2 pageFile :
  shape root1 = shape root2 ->
  shape (add_page layouts1 loading1 error1 data1 root1 pageFile)
  = shape (add_page layouts2 loading2 error2 data2 root2 pageFile).
Proof.
  intros Hroot. unfold add_page.
  destruct (splittedRoute pageFile) as [| file [| dir rest]].
  - apply (walk_alike pageFile [] (mkWalk root1 (InTree []) "")
             (mkWalk root2 (InTree []) "")). now repeat split.
  - destruct (String.eqb file "index.tsx"); rewrite !shape_push;
      now rewrite Hroot.
  - apply (walk_alike pageFile (file :: dir :: rest)
             (mkWalk root1 (InTree []) "") (mkWalk root2 (InTree []) "")).
    now repeat split.
Qed.

(** The layout, loading, error and data entries decide elements only:
    two sets of collaborators give, for the same pages, trees with the
    same nodes at the same places, with the same paths and index flags. *)
Theorem collaborators_keep_shape (pages : list string) :
  map shape (routes layouts1 loading1 error1 data1 pages)
  = map shape (routes layouts2 loading2 error2 data2 pages).
Proof.
  unfold routes. simpl. f_equal.
  assert (Hroot : shape (root_route layouts1 error1)
                  = shape (root_route layouts2 error2)) by reflexivity.
  revert Hroot. generalize (root_route layouts1 error1) as root1.
  generalize (root_route layouts2 error2) as root2.
  induction pages as [| pageFile pages IH]; intros root2 root1 Hroot;
    [exact Hroot |].
  simpl. apply IH. now apply add_page_shape.
Qed.

End TwoSettings.

End ShapeFacts.

(** * The lookup of a directory *)

Module LookupFacts.

(** The node made for a directory name that is not empty is not what
    the lookup of lines 217-225 looks for, whatever the carried path: the
    lookup over an array that holds such nodes only finds nothing. *)
Theorem lookup_misses_directory_nodes
    (_layouts _loading _error : gset string)
    (pageFile carried routeOrFile carried' next : string) :
  routeOrFile <> "" ->
  Js.includes "/" routeOrFile = false ->
  Js.endsWith ".tsx" routeOrFile = false ->
  list_find (fun child => path child = Some (carried' +:+ "/" +:+ next))
    [directory_node _layouts _loading _error pageFile carried routeOrFile]
  = None.
Proof.
  intros Hne Hsep Htsx. apply list_find_None. constructor; [| constructor].
  now apply RouterFacts.directory_node_never_found.
Qed.

Lemma lookup_misses_directory_nodes_witness :
  list_find (fun child => path child = Some ("" +:+ "/" +:+ "blog"))
    [directory_node ∅ ∅ ∅ "/src/pages/blog/view.tsx" "/blog" "blog"]
  = None.
Proof.
  apply (lookup_misses_directory_nodes ∅ ∅ ∅
           "/src/pages/blog/view.tsx" "/blog" "blog" "" "blog").
  - discriminate.
  - reflexivity.
  - reflexivity.
Defined.

End LookupFacts.

(** * The order of siblings *)

Module OrderFacts.
Import TreeFacts.

Lemma all_nodes_node_at Q q r n :
  all_nodes Q r = true -> node_at q r = Some n -> Q n = true.
Proof.
  revert r. induction q as [| i q IH]; intros r Hr; simpl.
  - intros [= <-]. rewrite InvariantFacts.all_nodes_unfold in Hr.
    now apply andb_prop in Hr as [Hr _].
  - rewrite InvariantFacts.all_nodes_unfold in Hr.
    apply andb_prop in Hr as [_ Hcs].
    destruct (children r) as [cs |]; [| discriminate].
    destruct (cs !! i) as [c |] eqn:Hi; [| discriminate].
    apply IH. rewrite forallb_forall in Hcs.
    now apply Hcs, list_elem_of_In, (list_elem_of_lookup_2 _ i).
Qed.

Lemma node_at_app_last p j r :
  node_at (p ++ [j]) r
  = match children_at p r with
    | Some cs => cs !! j
    | None => None
    end.
Proof.
  unfold children_at. revert r. induction p as [| i p IH]; intros r; simpl.
  - destruct (children r) as [cs |]; [| reflexivity].
    now destruct (cs !! j).
  - destruct (children r) as [cs |]; [| reflexivity].
    destruct (cs !! i) as [c |]; [apply IH | reflexivity].
Qed.

(** In a tree the younger sibling is there only if the older one is. *)
Lemma older_sibling_present p i j r :
  i < j -> is_Some (node_at (p ++ [j]) r) -> is_Some (node_at (p ++ [i]) r).
Proof.
  rewrite !node_at_app_last. intros Hij.
  destruct (children_at p r) as [cs |]; [| now intros []].
  intros Hj%lookup_lt_is_Some. apply lookup_lt_is_Some. lia.
Qed.

Section Check.

Variable Q : RouteObject -> bool.
Hypothesis Q_blind :
  forall pa ix e cs cs',
    Q (mkRoute pa ix e (Some cs)) = Q (mkRoute pa ix e (Some cs')).

Lemma grows_by_refl r : grows_by Q r r.
Proof.
  induction r as [p i e | p i e cs IH] using RouteObject_nested_ind.
  - constructor.
  - rewrite <- (app_nil_r cs) at 2. constructor; [| constructor].
    induction IH; constructor; auto.
Qed.

Lemma grows_by_grows r r' : grows_by Q r r' -> grows r r'.
Proof.
  revert r'.
  induction r as [p i e | p i e cs IH] using RouteObject_nested_ind;
    intros r' Hg; inversion Hg as [| ? ? ? ? new added Hold Hadded]; subst.
  - constructor.
  - constructor. clear Hg. revert new Hold.
    induction IH as [| x cs Hx _ IHcs]; intros new Hold;
      inversion Hold; subst; constructor; auto.
Qed.

(** What is added passes the check, and goes on passing it as it
    grows. *)
Lemma all_nodes_grows_by x y :
  all_nodes Q x = true -> grows_by Q x y -> all_nodes Q y = true.
Proof.
  revert y.
  induction x as [p i e | p i e cs IH] using RouteObject_nested_ind;
    intros y Hx Hg; inversion Hg as [| ? ? ? ? new added Hold Hadded]; subst.
  - exact Hx.
  - simpl in *. apply andb_prop in Hx as [Hroot Hcs].
    rewrite (Q_blind _ _ _ _ cs), Hroot, forallb_app. simpl.
    apply andb_true_intro. split.
    + clear Hg Hroot. revert new Hold Hcs.
      induction IH as [| x cs Hx _ IHcs]; intros new Hold Hcs;
        inversion Hold; subst; [reflexivity |].
      simpl in *. apply andb_prop in Hcs as [Hhead Hcs].
      apply andb_true_intro. split; auto.
    + apply forallb_forall. intros a Ha. rewrite Forall_forall in Hadded.
      now apply Hadded, list_elem_of_In.
Qed.

Lemma grows_by_trans a b c :
  grows_by Q a b -> grows_by Q b c -> grows_by Q a c.
Proof.
  revert b c.
  induction a as [p i e | p i e cs IH] using RouteObject_nested_ind;
    intros b c Hab Hbc.
  - inversion Hab; subst. exact Hbc.
  - inversion Hab as [| ? ? ? ? new added Hold Hadded]; subst.
    inversion Hbc as [| ? ? ? ? new' added' Hnew Hadded']; subst.
    apply Forall2_app_inv_l in Hnew as (k1 & k2 & Hk1 & Hk2 & ->).
    rewrite <- app_assoc. constructor.
    + clear Hab Hbc. revert new k1 Hold Hk1.
      induction IH as [| x cs Hx _ IHcs]; intros new k1 Hold Hk1;
        inversion Hold; subst; inversion Hk1; subst; constructor; eauto.
    + apply Forall_app. split; [| exact Hadded'].
      clear Hab Hbc Hold Hk1. revert k2 Hk2.
      induction Hadded as [| a added Ha _ IHadded]; intros k2 Hk2;
        inversion Hk2; subst; constructor; eauto using all_nodes_grows_by.
Qed.

Lemma grows_by_push_at p n r :
  all_nodes Q n = true -> grows_by Q r (push_at p n r).
Proof.
  intros Hn. revert r.
  induction p as [| i p IH]; intros [pa ix e [cs |]]; simpl.
  - constructor; [| now repeat constructor].
    induction cs; constructor; auto using grows_by_refl.
  - constructor.
  - rewrite <- (app_nil_r (alter _ _ _)). constructor; [| constructor].
    apply Forall2_alter_r.
    + induction cs; constructor; auto using grows_by_refl.
    + intros x y _ _ Hxy. eapply grows_by_trans; [exact Hxy | apply IH].
  - constructor.
Qed.

Lemma grows_by_push cur n r :
  all_nodes Q n = true -> grows_by Q r (push cur n r).
Proof.
  destruct cur; simpl; auto using grows_by_push_at, grows_by_refl.
Qed.

(** A node that was not there passes the check. *)
Lemma grows_by_new_node q r r' n :
  grows_by Q r r' ->
  node_at q r = None -> node_at q r' = Some n -> Q n = true.
Proof.
  revert r r'. induction q as [| i q IH]; intros r r' Hg; [discriminate |].
  inversion Hg as [| ? ? ? old new added Hold Hadded]; subst; simpl.
  - congruence.
  - destruct (decide (i < length new)) as [Hlt | Hge].
    + rewrite lookup_app_l by exact Hlt.
      destruct (new !! i) as [c' |] eqn:Hi'; [| discriminate].
      destruct (Forall2_lookup_r _ _ _ _ _ Hold Hi') as (c & Hi & Hc).
      rewrite Hi. now apply IH.
    + rewrite lookup_app_r by lia. intros _.
      destruct (added !! (i - length new)) as [a |] eqn:Ha; [| discriminate].
      apply all_nodes_node_at.
      rewrite Forall_forall in Hadded.
      now apply Hadded, (list_elem_of_lookup_2 _ (i - length new)).
Qed.

End Check.

Lemma made_for_blind pageFile pa ix e cs cs' :
  made_for pageFile (mkRoute pa ix e (Some cs))
  = made_for pageFile (mkRoute pa ix e (Some cs')).
Proof. reflexivity. Qed.

Lemma made_for_grows pageFile n n' :
  grows n n' -> made_for pageFile n' = made_for pageFile n.
Proof. now intros []. Qed.

Section Entries.

Variables _layouts _loading _error _data : gset string.

Local Abbreviation walk_with := (walk_segment _layouts _loading _error).
Local Abbreviation add_with := (add_page _layouts _loading _error _data).
Local Abbreviation after := (tree_after _layouts _loading _error _data).
Local Abbreviation created :=
  (created_at _layouts _loading _error _data).

Lemma root_leaf_element_page pageFile :
  page_of (root_leaf_element _loading _data pageFile) = Some pageFile.
Proof.
  unfold root_leaf_element. now destruct (isDataFunctionComponentSet _ _).
Qed.

(** What one pass of the inner loop adds is made for the page of the
    outer loop. *)
Lemma walk_segment_made pageFile w routeOrFile :
  In routeOrFile (splittedRoute pageFile) ->
  grows_by (made_for pageFile) (tree w)
    (tree (walk_with pageFile w routeOrFile)).
Proof.
  intros Hin. unfold walk_segment.
  destruct (Js.endsWith ".tsx" routeOrFile); simpl.
  - apply grows_by_push; [apply made_for_blind |].
    destruct (String.eqb routeOrFile "index.tsx"); unfold made_for; simpl;
      now rewrite bool_decide_eq_true_2.
  - destruct (currentChildren w) as [p | |]; simpl;
      try apply grows_by_refl.
    destruct (children_at p (tree w)) as [cs |]; simpl;
      try apply grows_by_refl.
    destruct (list_find _ cs) as [[i found] |]; simpl;
      [apply grows_by_refl |].
    apply grows_by_push_at; [apply made_for_blind |].
    unfold made_for. simpl. rewrite andb_true_r.
    apply existsb_exists. exists routeOrFile. split; [exact Hin |].
    now apply bool_decide_eq_true_2.
Qed.

Lemma walk_made pageFile segments w :
  (forall s, In s segments -> In s (splittedRoute pageFile)) ->
  grows_by (made_for pageFile) (tree w)
    (tree (fold_left (walk_with pageFile) segments w)).
Proof.
  revert w. induction segments as [| s segments IH]; intros w Hsub; simpl.
  - apply grows_by_refl.
  - eapply grows_by_trans; [apply made_for_blind | |].
    + apply walk_segment_made, Hsub. now left.
    + apply IH. intros; apply Hsub; now right.
Qed.

(** What one pass of the outer loop adds is made for its page. *)
Lemma add_page_made root pageFile :
  grows_by (made_for pageFile) root (add_with root pageFile).
Proof.
  unfold add_page.
  destruct (splittedRoute pageFile) as [| file [| dir rest]] eqn:Hsplit.
  - apply grows_by_refl.
  - destruct (String.eqb file "index.tsx");
      (apply grows_by_push; [apply made_for_blind |]);
      rewrite InvariantFacts.all_nodes_unfold; unfold made_for;
      cbn [children element]; rewrite root_leaf_element_page;
      now rewrite bool_decide_eq_true_2.
  - apply (walk_made pageFile (file :: dir :: rest)
             (mkWalk root (InTree []) "")).
    now rewrite Hsplit.
Qed.

Variable pages : list string.

Lemma after_S k pageFile :
  pages !! k = Some pageFile ->
  after pages (S k) = add_with (after pages k) pageFile.
Proof.
  intros Hk. unfold tree_after.
  now rewrite (take_S_r _ _ _ Hk), fold_left_app.
Qed.

Lemma after_end k :
  length pages <= k -> after pages k = after pages (length pages).
Proof.
  intros Hk. unfold tree_after. now rewrite !take_ge by lia.
Qed.

Lemma after_grows a b : a <= b -> grows (after pages a) (after pages b).
Proof.
  intros Hab. unfold tree_after.
  rewrite <- (take_drop a (take b pages)), take_take, Nat.min_l by exact Hab.
  rewrite fold_left_app. apply RouterFacts.add_pages_grow.
Qed.

Lemma after_children k : is_Some (children (after pages k)).
Proof.
  destruct (RouterFacts.grows_fields _ _ (after_grows 0 k (Nat.le_0_l k)))
    as (_ & _ & _ & Hkids).
  apply Hkids. unfold tree_after. rewrite take_0. simpl. eauto.
Qed.

(** A node stays where it is. *)
Lemma after_keeps a b q n :
  a <= b -> node_at q (after pages a) = Some n ->
  exists n', node_at q (after pages b) = Some n' /\ grows n n'.
Proof.
  intros Hab. apply grows_node_at, after_grows, Hab.
Qed.

(** The iteration that creates a node is an iteration of the loop. *)
Lemma created_in_range q k :
  created pages q k -> is_Some (pages !! k).
Proof.
  intros [Hnone Hsome]. apply lookup_lt_is_Some.
  destruct (decide (k < length pages)) as [| Hge]; [assumption |].
  rewrite (after_end (S k)), <- (after_end k), Hnone in Hsome by lia.
  now destruct Hsome.
Qed.

(** Every node but the root has an iteration that creates it. *)
Lemma first_appearance m q :
  q <> [] -> is_Some (node_at q (after pages m)) ->
  exists k, k < m /\ created pages q k.
Proof.
  intros Hq. induction m as [| m IH]; intros [n Hn].
  - unfold tree_after in Hn. rewrite take_0 in Hn.
    destruct q as [| i q]; [contradiction |]. discriminate.
  - destruct (node_at q (after pages m)) as [n0 |] eqn:Hm.
    + destruct IH as (k & Hk & Hcreated); [eauto |].
      exists k. split; [lia | exact Hcreated].
    + exists m. split; [lia |]. split; [exact Hm | rewrite Hn; eauto].
Qed.

(** C8: in every children array of the built tree the nodes stand in
    the order of discovery of the entries they come from.  The entry a
    node comes from is the one whose iteration of the outer loop pushes
    the node ([created_at]).  For every list of entries:
    - every node but the root comes from one entry, and is made from it:
      a leaf shows the component of that page, a node with children is
      named after a segment of that page;
    - of two nodes of one children array, the one that stands first comes
      from the same entry as the other or from an entry discovered
      earlier;
    - every page directly under the base path has its leaf among the
      children of the root, at the place its own iteration gave it;
    - when the pages are regular and none shadows a later one, the
      children of the root are the nodes of the pages, one per page, in
      the order of the pages;
    - the tree is the one [routes] returns. *)
Theorem C8_siblings_in_discovery_order :
  (forall q n,
     q <> [] -> node_at q (after pages (length pages)) = Some n ->
     exists k pageFile,
       pages !! k = Some pageFile
       /\ created pages q k
       /\ made_for pageFile n = true)
  /\ (forall p i j ki kj,
        i < j ->
        created pages (p ++ [i]) ki -> created pages (p ++ [j]) kj ->
        ki <= kj)
  /\ (forall k pageFile file,
        pages !! k = Some pageFile -> splittedRoute pageFile = [file] ->
        exists i n,
          node_at [i] (after pages (length pages)) = Some n
          /\ created pages [i] k
          /\ page_of (element n) = Some pageFile)
  /\ (forallb regular_page pages = true -> no_shadowing pages = true ->
      children (after pages (length pages))
      = Some (map (node_of _layouts _loading _error _data) pages))
  /\ routes _layouts _loading _error _data pages
     = [after pages (length pages)].
Proof.
  split; [| split; [| split; [| split]]].
  - intros q n Hq Hn.
    destruct (first_appearance (length pages) q Hq) as (k & Hk & Hcreated);
      [eauto |].
    destruct (created_in_range _ _ Hcreated) as [pageFile Hpage].
    exists k, pageFile. repeat split; try assumption; try apply Hcreated.
    destruct Hcreated as [Hnone [n0 Hsome]].
    assert (Hmade : made_for pageFile n0 = true).
    { rewrite (after_S _ _ Hpage) in Hsome.
      eapply grows_by_new_node;
        [apply add_page_made | exact Hnone | exact Hsome]. }
    destruct (after_keeps (S k) (length pages) q n0) as (n' & Hn' & Hg);
      [lia | exact Hsome |].
    rewrite Hn in Hn'. injection Hn' as <-.
    now rewrite (made_for_grows _ _ _ Hg).
  - intros p i j ki kj Hij [Hi _] [_ Hj].
    destruct (decide (ki <= kj)) as [| Hlt]; [assumption |].
    destruct Hj as [nj Hj].
    destruct (after_keeps (S kj) ki _ _ ltac:(lia) Hj) as (nj' & Hj' & _).
    destruct (older_sibling_present p i j (after pages ki) Hij) as [ni Hni];
      [eauto |].
    congruence.
  - intros k pageFile file Hpage Hsplit.
    destruct (after_children k) as [cs Hcs].
    assert (Hleaf : exists leaf,
      after pages (S k) = push_at [] leaf (after pages k)
      /\ element leaf = root_leaf_element _loading _data pageFile).
    { rewrite (after_S _ _ Hpage). unfold add_page. rewrite Hsplit.
      destruct (String.eqb file "index.tsx"); eexists; split;
        reflexivity. }
    destruct Hleaf as (leaf & Hpush & Helement).
    assert (Hnew : node_at [length cs] (after pages (S k)) = Some leaf).
    { rewrite Hpush, (PlacementFacts.push_at_root _ _ _ Hcs). simpl.
      now rewrite lookup_app_r, Nat.sub_diag by lia. }
    assert (Hold : node_at [length cs] (after pages k) = None).
    { simpl. rewrite Hcs. now rewrite lookup_ge_None_2 by lia. }
    destruct (after_keeps (S k) (length pages) _ _
                ltac:(apply lookup_lt_Some in Hpage; lia) Hnew)
      as (n & Hn & Hg).
    exists (length cs), n. repeat split; try assumption.
    + rewrite Hnew. eauto.
    + destruct (RouterFacts.grows_fields _ _ Hg) as (_ & _ & -> & _).
      rewrite Helement. apply root_leaf_element_page.
  - intros Hreg Hno. unfold tree_after. rewrite take_ge by lia.
    now rewrite (PlacementFacts.add_pages_regular _layouts _loading _error
                   _data pages (root_route _layouts _error) [] eq_refl
                   Hreg Hno) by (intros; constructor).
  - unfold routes, tree_after. now rewrite take_ge by lia.
Qed.

End Entries.

Lemma C8_siblings_in_discovery_order_witness :
  exists i n,
    node_at [i]
      (tree_after ∅ ∅ ∅ ∅ ["/src/pages/zebra.tsx"; "/src/pages/apple.tsx"] 2)
    = Some n
    /\ created_at ∅ ∅ ∅ ∅ ["/src/pages/zebra.tsx"; "/src/pages/apple.tsx"]
         [i] 1
    /\ page_of (element n) = Some "/src/pages/apple.tsx".
Proof.
  destruct (C8_siblings_in_discovery_order ∅ ∅ ∅ ∅
              ["/src/pages/zebra.tsx"; "/src/pages/apple.tsx"])
    as (_ & _ & Hleaf & _ & _).
  apply (Hleaf 1 "/src/pages/apple.tsx" "apple.tsx"); reflexivity.
Defined.

End OrderFacts.

(** * Setters given a function *)

Module SetterFacts.
Import Bridge.

(** On a value that is not a function the effect is the one of
    [Bridge.loadData]. *)
Lemma loadData_any_value previous V :
  loadData_any previous (Some (Fulfilled (Fulfilled (Value V))))
  = loadData (resolving V).
Proof. reflexivity. Qed.

(** A function the data function resolves to is called with the [data]
    cell, [null] on a mount, and its result is what the bridge tests and
    passes on. *)
Lemma function_value_is_called (f : JsValue -> JsValue) (C L : Component) :
  truthy (f JNull) = true ->
  render C L
    (fold_left apply
       (fst (loadData_any (data initial)
               (Some (Fulfilled (Fulfilled (Updater f))))))
       initial)
  = RenderWithData C (f JNull).
Proof. intros Hf. unfold render. simpl. now rewrite Hf. Qed.

Example function_resolving_to_42 :
  render (Lazy Pages "/src/pages/index.tsx") GenericLoading
    (fold_left apply
       (fst (loadData_any (data initial)
               (Some (Fulfilled (Fulfilled (Updater (fun _ => JNumber 42)))))))
       initial)
  = RenderWithData (Lazy Pages "/src/pages/index.tsx") (JNumber 42).
Proof. reflexivity. Qed.

End SetterFacts.
